(** * The PostgreSQL entry point of the database connector

    A shallow embedding of [madlib::dbconnector::call]
    (src/ports/postgres/dbconnector/PGMain.cpp), the function every exported
    SQL-callable symbol funnels through.  [call] runs a native function under
    two nested [try] blocks, turns whatever exception escapes into an
    (sqlerrcode, message) pair held in plain data, and hands that pair to the
    backend through [ereport(ERROR, ...)], which leaves by [longjmp].

    Layout of the file:
    - [CString]: NUL-terminated strings, [strncpy], array stores and reads;
    - [Postgres]: the backend's data that [call] touches (error codes,
      severity levels, the per-call structure);
    - [Connector]: the C++ side: exceptions, completions, the machine state
      and its monad, the classes the function is linked against, and [call];
    - [Outcome] and [Sample]: the vocabulary of the properties and a small
      instance to run them on;
    - facts about the strings and about the connector, and the properties
      of [call]. *)

From Stdlib Require Import List String Ascii ZArith Lia Bool Arith.
From ExtLib Require Import Structures.Monad.
Import ListNotations.
Import MonadNotation.

Local Open Scope string_scope.
Local Open Scope list_scope.

(* ===================================================================== *)
(** ** C strings and character arrays *)
(* ===================================================================== *)

Module CString.

(** The terminator ['\0']. *)
Definition NUL : ascii := Ascii.zero.

Definition is_nul (c : ascii) : bool := Ascii.eqb c NUL.

(** The text a [const char *] designates: the bytes in front of the first
    terminator.  A [string] stands for the memory the pointer points into;
    running off its end is reading the terminator. *)
Fixpoint c_text (s : string) : string :=
  match s with
  | EmptyString => EmptyString
  | String c r => if is_nul c then EmptyString else String c (c_text r)
  end.

(** The first [n] bytes of a text. *)
Fixpoint take (n : nat) (s : string) : string :=
  match n, s with
  | S n', String c r => String c (take n' r)
  | _, _ => EmptyString
  end.

(** What [strncpy(dst, src, n)] writes: bytes of [src] up to and excluding
    the terminator, at most [n] of them, and NUL padding up to [n] bytes.
    When [src] holds [n] bytes or more before its terminator, no terminator
    is written. *)
Fixpoint strncpy_bytes (n : nat) (src : string) : list ascii :=
  match n with
  | O => []
  | S n' =>
      match src with
      | EmptyString => repeat NUL n
      | String c r =>
          if is_nul c then repeat NUL n else c :: strncpy_bytes n' r
      end
  end.

(** [strncpy(dst, src, n)] on an array [dst]: the first [n] elements are
    overwritten; [None] is a write past the end of the array. *)
Definition strncpy (dst : list ascii) (src : string) (n : nat)
  : option (list ascii) :=
  if (n <=? List.length dst)%nat
  then Some (strncpy_bytes n src ++ skipn n dst)
  else None.

(** [a[i] = c]; [None] is a store outside the array. *)
Fixpoint store (a : list ascii) (i : nat) (c : ascii) : option (list ascii) :=
  match a, i with
  | [], _ => None
  | _ :: r, O => Some (c :: r)
  | b :: r, S i' => option_map (cons b) (store r i' c)
  end.

(** Reading an array as a string (what [%s] does with it); [None] is a read
    that leaves the array without meeting a terminator. *)
Fixpoint c_str (a : list ascii) : option string :=
  match a with
  | [] => None
  | c :: r => if is_nul c then Some EmptyString
              else option_map (String c) (c_str r)
  end.

(** The double quote character (code 34). *)
Definition dquote : ascii := ascii_of_nat 34.

End CString.

(* ===================================================================== *)
(** ** The backend interface *)
(* ===================================================================== *)

Module Postgres.

Definition Datum := Z.
Definition Oid := Z.

(** [PGSIXBIT] and [MAKE_SQLSTATE] of utils/elog.h. *)
Definition PGSIXBIT (ch : ascii) : Z :=
  Z.land (Z.of_nat (nat_of_ascii ch) - Z.of_nat (nat_of_ascii "0"%char)) 63.

Definition MAKE_SQLSTATE (ch1 ch2 ch3 ch4 ch5 : ascii) : Z :=
  PGSIXBIT ch1 + Z.shiftl (PGSIXBIT ch2) 6 + Z.shiftl (PGSIXBIT ch3) 12
  + Z.shiftl (PGSIXBIT ch4) 18 + Z.shiftl (PGSIXBIT ch5) 24.

(** SQLSTATE 53200 and 22023 of utils/errcodes.h. *)
Definition ERRCODE_OUT_OF_MEMORY : Z := MAKE_SQLSTATE "5"%char "3"%char "2"%char "0"%char "0"%char.
Definition ERRCODE_INVALID_PARAMETER_VALUE : Z :=
  MAKE_SQLSTATE "2"%char "2"%char "0"%char "2"%char "3"%char.

(** Severity levels; [ereport] returns to its caller below [ERROR] only. *)
Inductive ErrorLevel := INFO | NOTICE | WARNING | ERROR.

Definition returns_to_caller (l : ErrorLevel) : bool :=
  match l with
  | ERROR => false
  | _ => true
  end.

(** What the error channel receives from one [ereport]. *)
Record ErrorData := {
  elevel : ErrorLevel;
  ed_sqlerrcode : Z;
  message : string
}.

Record FmgrInfo := { fn_oid : Oid }.

(** The per-call structure [fcinfo] points to. *)
Record FunctionCallInfoData := {
  flinfo : FmgrInfo;
  args : list Datum;
  isnull : bool
}.

Definition set_isnull (b : bool) (fc : FunctionCallInfoData) :=
  {| flinfo := flinfo fc; args := args fc; isnull := b |}.

End Postgres.

(* ===================================================================== *)
(** ** The connector *)
(* ===================================================================== *)

Module Connector.
Import CString Postgres.
Local Open Scope monad_scope.

(** *** Exceptions and completions *)

(** A thrown object, as far as the handler clauses of [call] can tell
    thrown objects apart. *)
Inductive exn :=
| bad_alloc (what : string)      (* std::bad_alloc, or a class derived from it *)
| std_exception (what : string)  (* any other class derived from std::exception *)
| foreign_exception.             (* an object that is no std::exception at all *)

(** A call into C++ code that may throw. *)
Inductive result (A : Type) :=
| Ok (a : A)
| Raise (e : exn).
Arguments Ok {A} a.
Arguments Raise {A} e.

(** How a statement of [call] completes. *)
Inductive completion (A : Type) :=
| Normal (a : A)     (* control goes on to the next statement *)
| Return (d : Datum) (* a return statement leaves call with value d *)
| Throw (e : exn)    (* an exception is propagating *)
| Longjmp            (* ereport(ERROR) has jumped into the backend *)
| Fault.             (* an access outside an array *)
Arguments Normal {A} a.
Arguments Return {A} d.
Arguments Throw {A} e.
Arguments Longjmp {A}.
Arguments Fault {A}.

(** *** Shared pointers *)

(** Modelled from the spec: the deleter policy of a shared pointer.  The
    template NoDeleter and the shared-pointer type AbstractTypeSPtr are
    declared outside PGMain.cpp; the spec (section 4.2) describes
    wrap(value, deleter-policy), where the policy decides whether the
    container owns the wrapped value or merely references it. *)
Inductive Deleter :=
| CheckedDeleter  (* the default: the pointee is deleted with the last owner *)
| NoDeleter.      (* the pointee is left alone *)

Record AbstractTypeSPtr (T : Type) := {
  sp_get : T;
  sp_deleter : Deleter
}.
Arguments sp_get {T} _.
Arguments sp_deleter {T} _.

(** Modelled from the spec: whether the container owns what it wraps. *)
Definition owning {T} (p : AbstractTypeSPtr T) : bool :=
  match sp_deleter p with
  | CheckedDeleter => true
  | NoDeleter => false
  end.

(** Modelled from the spec: the objects freed when the last shared pointer
    to the pointee goes away ("the container must never free memory it does
    not own"). *)
Definition released {T} (p : AbstractTypeSPtr T) : list T :=
  if owning p then [sp_get p] else [].

(** *** What [call] is compiled against

    PGMain.cpp includes the connector's headers and the configuration; none
    of them is part of the file.  [call] uses them through the operations
    below, each of which may throw where a C++ constructor or member
    function may. *)
Record Env := {
  (** the configured package name, a string literal *)
  PACKAGE_NAME : string;
  (** the backend's format_procedure: the printable name of a function *)
  format_procedure : Oid -> string;
  (** class PGInterface, its constructor from fcinfo and its lastError(),
      a pointer that is null when no error is pending *)
  PGInterface : Type;
  PGInterface_new : FunctionCallInfoData -> result PGInterface;
  lastError : PGInterface -> option string;
  (** class PGType<FunctionCallInfo> and its constructor from fcinfo *)
  PGType : Type;
  PGType_new : FunctionCallInfoData -> result PGType;
  (** class AnyType, its constructor from a shared pointer, and isNull() *)
  AnyType : Type;
  AnyType_new : AbstractTypeSPtr PGType -> result AnyType;
  isNull : AnyType -> bool;
  (** PGToDatumConverter(fcinfo).convertToDatum *)
  convertToDatum : FunctionCallInfoData -> AnyType -> result Datum
}.

(** A native function: it receives the interface object by reference, so it
    hands back the object as it left it, whether it returns or throws. *)
Definition MADFunction (E : Env) : Type :=
  PGInterface E -> AnyType E -> PGInterface E * result (AnyType E).

(** *** Machine state *)

(** What the backend can observe of a call. *)
Record host := {
  fcinfo : FunctionCallInfoData;
  reported : list ErrorData     (* what ereport was handed, oldest first *)
}.

(** [sizeof(msg)] for [char msg[2048]]. *)
Definition sizeof_msg : nat := 2048.

(** The values the locals [sqlerrcode] and [msg] hold before they are first
    assigned. *)
Record Indeterminate := {
  junk_int : Z;
  junk_char : nat -> ascii
}.

Section WithEnv.

Context (E : Env).

(** The backend state together with the locals of one activation of
    [call]; [db] is in scope inside the outer try block only. *)
Record machine := {
  hst : host;
  sqlerrcode : Z;
  msg : list ascii;
  db : option (PGInterface E)
}.

Definition set_hst (h : host) (m : machine) : machine :=
  {| hst := h; sqlerrcode := sqlerrcode m; msg := msg m; db := db m |}.
Definition set_sqlerrcode (z : Z) (m : machine) : machine :=
  {| hst := hst m; sqlerrcode := z; msg := msg m; db := db m |}.
Definition set_msg (a : list ascii) (m : machine) : machine :=
  {| hst := hst m; sqlerrcode := sqlerrcode m; msg := a; db := db m |}.
Definition set_db (d : option (PGInterface E)) (m : machine) : machine :=
  {| hst := hst m; sqlerrcode := sqlerrcode m; msg := msg m; db := d |}.

(** The activation record on entry. *)
Definition enter (j : Indeterminate) (h : host) : machine :=
  {| hst := h;
     sqlerrcode := junk_int j;
     msg := map (junk_char j) (seq 0 sizeof_msg);
     db := None |}.

(** *** The statement monad *)

Definition M (A : Type) : Type := machine -> machine * completion A.

Definition M_ret {A} (a : A) : M A := fun m => (m, Normal a).

Definition M_bind {A B} (c : M A) (k : A -> M B) : M B :=
  fun m =>
    match c m with
    | (m', Normal a) => k a m'
    | (m', Return d) => (m', Return d)
    | (m', Throw e) => (m', Throw e)
    | (m', Longjmp) => (m', Longjmp)
    | (m', Fault) => (m', Fault)
    end.

#[export] Instance Monad_M : Monad M :=
  {| ret := @M_ret; bind := @M_bind |}.

Definition return_ {A} (d : Datum) : M A := fun m => (m, Return d).

Definition lift {A} (r : result A) : M A :=
  fun m =>
    match r with
    | Ok a => (m, Normal a)
    | Raise e => (m, Throw e)
    end.

Definition get_fcinfo : M FunctionCallInfoData :=
  fun m => (m, Normal (fcinfo (hst m))).

Definition get_sqlerrcode : M Z := fun m => (m, Normal (sqlerrcode m)).

Definition assign_sqlerrcode (z : Z) : M unit :=
  fun m => (set_sqlerrcode z m, Normal tt).

(** [db] names an object only inside its scope. *)
Definition get_db : M (PGInterface E) :=
  fun m =>
    match db m with
    | Some d => (m, Normal d)
    | None => (m, Fault)
    end.

(** [strncpy(msg, src, n)]. *)
Definition strncpy_msg (src : string) (n : nat) : M unit :=
  fun m =>
    match strncpy (msg m) src n with
    | Some a => (set_msg a m, Normal tt)
    | None => (m, Fault)
    end.

(** [msg[i] = c]. *)
Definition store_msg (i : nat) (c : ascii) : M unit :=
  fun m =>
    match store (msg m) i c with
    | Some a => (set_msg a m, Normal tt)
    | None => (m, Fault)
    end.

(** [msg] passed for a [%s]. *)
Definition read_msg : M string :=
  fun m =>
    match c_str (msg m) with
    | Some s => (m, Normal s)
    | None => (m, Fault)
    end.

(** [PG_RETURN_NULL()]: [fcinfo->isnull = true; return (Datum) 0]. *)
Definition PG_RETURN_NULL {A} : M A :=
  fun m =>
    (set_hst {| fcinfo := set_isnull true (fcinfo (hst m));
                reported := reported (hst m) |} m,
     Return 0%Z).

(** [ereport(level, (errcode(code), errmsg(text)))]: the backend records
    the report; at [ERROR] it does not come back. *)
Definition ereport (level : ErrorLevel) (code : Z) (text : string) : M unit :=
  fun m =>
    let e := {| elevel := level; ed_sqlerrcode := code; message := text |} in
    let m' := set_hst {| fcinfo := fcinfo (hst m);
                         reported := reported (hst m) ++ [e] |} m in
    if returns_to_caller level then (m', Normal tt) else (m', Longjmp).

(** *** try and catch *)

Inductive handler :=
| catch_bad_alloc (h : M unit)               (* catch (std::bad_alloc &) *)
| catch_std_exception (h : string -> M unit) (* catch (std::exception &exc),
                                                 given exc.what() *)
| catch_all (h : M unit).                    (* catch (...) *)

Definition selects (h : handler) (e : exn) : option (M unit) :=
  match h, e with
  | catch_bad_alloc k, bad_alloc _ => Some k
  | catch_bad_alloc _, _ => None
  | catch_std_exception k, bad_alloc w => Some (k w)
  | catch_std_exception k, std_exception w => Some (k w)
  | catch_std_exception _, foreign_exception => None
  | catch_all k, _ => Some k
  end.

(** The first clause, in source order, that matches. *)
Fixpoint find_handler (hs : list handler) (e : exn) : option (M unit) :=
  match hs with
  | [] => None
  | h :: rest =>
      match selects h e with
      | Some k => Some k
      | None => find_handler rest e
      end
  end.

Definition try_catch (body : M unit) (hs : list handler) : M unit :=
  fun m =>
    match body m with
    | (m', Throw e) =>
        match find_handler hs e with
        | Some k => k m'
        | None => (m', Throw e)
        end
    | r => r
    end.

(** [PGInterface db(fcinfo);] and the rest of the block [db] is declared
    in; the object is gone when the block is left, however it is left. *)
Definition declare_db (rest : M unit) : M unit :=
  fun m =>
    match PGInterface_new E (fcinfo (hst m)) with
    | Raise e => (m, Throw e)
    | Ok d => let (m', c) := rest (set_db (Some d) m) in (set_db None m', c)
    end.

(** [f(db, a)]: [f] works on the object [db] itself. *)
Definition invoke (f : MADFunction E) (a : AnyType E) : M (AnyType E) :=
  fun m =>
    match db m with
    | None => (m, Fault)
    | Some d => let (d', r) := f d a in lift r (set_db (Some d') m)
    end.

(** *** The entry point *)

(** The text copied for an allocation failure: three adjacent string
    literals around [PACKAGE_NAME]. *)
Definition out_of_memory_text : string :=
  "Memory allocation failed. Typically, this indicates that "
  ++ PACKAGE_NAME E
  ++ " limits the available memory to less than what is needed for this "
  ++ "input.".

Definition unknown_exception_text : string := "Unknown exception was raised.".

(** The format [Function <dq>%s<dq>: %s] of the report, <dq> being the
    double quote. *)
Definition errmsg_Function (name text : string) : string :=
  "Function " ++ String dquote (name ++ String dquote (": " ++ text)).

(** The body of the inner try block. *)
Definition execute (f : MADFunction E) : M unit :=
  fc <- get_fcinfo ;;
  arg <- lift (PGType_new E fc) ;;
  a <- lift (AnyType_new E {| sp_get := arg; sp_deleter := NoDeleter |}) ;;
  result <- invoke f a ;;
  if isNull E result then PG_RETURN_NULL
  else (d <- lift (convertToDatum E fc result) ;; return_ d).

(** The handlers of the inner try block. *)
Definition inner_handlers : list handler :=
  [ catch_bad_alloc
      (assign_sqlerrcode ERRCODE_OUT_OF_MEMORY ;;
       strncpy_msg out_of_memory_text sizeof_msg);
    catch_std_exception
      (fun what =>
         assign_sqlerrcode ERRCODE_INVALID_PARAMETER_VALUE ;;
         d <- get_db ;;
         (* If there is a pending error, we report this instead. *)
         let error := match lastError E d with
                      | Some pending => pending
                      | None => what
                      end in
         strncpy_msg error sizeof_msg) ].

(** The handlers of the outer try block. *)
Definition outer_handlers : list handler :=
  [ catch_std_exception
      (fun what =>
         assign_sqlerrcode ERRCODE_INVALID_PARAMETER_VALUE ;;
         strncpy_msg what sizeof_msg);
    catch_all
      (assign_sqlerrcode ERRCODE_INVALID_PARAMETER_VALUE ;;
       strncpy_msg unknown_exception_text sizeof_msg) ].

(** The two nested try blocks. *)
Definition try_blocks (f : MADFunction E) : M unit :=
  try_catch
    (declare_db (try_catch (execute f) inner_handlers))
    outer_handlers.

(** The statements between the try blocks and the final return: the
    terminator is stored and the report goes to the backend. *)
Definition report_error : M unit :=
  store_msg (sizeof_msg - 1) NUL ;;
  code <- get_sqlerrcode ;;
  fc <- get_fcinfo ;;
  text <- read_msg ;;
  ereport ERROR code
    (errmsg_Function (c_text (format_procedure E (fn_oid (flinfo fc)))) text).

(** [call] up to and including the [ereport], run in a fresh activation
    record; the machine it yields still shows the locals. *)
Definition guarded_call (f : MADFunction E) (j : Indeterminate) (h : host)
  : machine * completion unit :=
  (try_blocks f ;; report_error) (enter j h).

(** [call] with the statement that follows the [ereport] left open. *)
Definition call_then (last : M unit) (f : MADFunction E) (j : Indeterminate)
  (h : host) : host * completion unit :=
  let (m, c) := (try_blocks f ;; report_error ;; last) (enter j h) in
  (hst m, c).

(** [call(f, fcinfo)]: the backend state it leaves and how it completes. *)
Definition call (f : MADFunction E) (j : Indeterminate) (h : host)
  : host * completion unit :=
  call_then PG_RETURN_NULL f j h.

End WithEnv.

End Connector.

(* ===================================================================== *)
(** ** Vocabulary of the properties *)
(* ===================================================================== *)

Module Outcome.
Import CString Postgres Connector.

(** The most bytes of text [msg] can hold in front of its terminator. *)
Definition budget : nat := sizeof_msg - 1.

(** The name [format_procedure] gives the invoked function. *)
Definition symbol_name (E : Env) (h : host) : string :=
  c_text (format_procedure E (fn_oid (flinfo (fcinfo h)))).

(** The report [call] hands over when it has chosen [code] and copied
    [text] into [msg]. *)
Definition error_report (E : Env) (h : host) (code : Z) (text : string)
  : ErrorData :=
  {| elevel := ERROR;
     ed_sqlerrcode := code;
     message := errmsg_Function (symbol_name E h) (take budget (c_text text)) |}.

(** [call] leaving through the error channel with that one report and no
    other change to the backend state. *)
Definition fails_with (E : Env) (h : host) (code : Z) (text : string)
  : host * completion unit :=
  ({| fcinfo := fcinfo h; reported := reported h ++ [error_report E h code text] |},
   Longjmp).

(** The machine in which the inner try block starts: a fresh activation
    record whose [db] has just been constructed as [d]. *)
Definition executing (E : Env) (j : Indeterminate) (h : host)
  (d : PGInterface E) : machine E :=
  set_db E (Some d) (enter E j h).

(** The locals after a handler has assigned [code] and copied [src]. *)
Definition classified (E : Env) (code : Z) (src : string) (m : machine E)
  : machine E :=
  set_msg E (strncpy_bytes sizeof_msg src) (set_sqlerrcode E code m).

(** The text the outer handlers copy for [e]. *)
Definition outer_text (e : exn) : string :=
  match e with
  | bad_alloc w => w
  | std_exception w => w
  | foreign_exception => unknown_exception_text
  end.

(** The code and the text chosen for an exception [e] that leaves the body
    of the inner try block while [lastError()] is [pending]. *)
Definition inner_code (e : exn) : Z :=
  match e with
  | bad_alloc _ => ERRCODE_OUT_OF_MEMORY
  | _ => ERRCODE_INVALID_PARAMETER_VALUE
  end.

Definition inner_text (E : Env) (e : exn) (pending : option string) : string :=
  match e with
  | bad_alloc _ => out_of_memory_text E
  | std_exception w => match pending with Some p => p | None => w end
  | foreign_exception => unknown_exception_text
  end.

(** [msg] of machine [m] holds the text [src] cut to the budget: the array
    has its 2048 bytes, the last one is NUL, it reads as the first 2047
    bytes of [src] (all of [src] when it is shorter), and behind them
    there are NUL bytes only. *)
Definition cut_in_msg (E : Env) (src : string) (m : machine E) : Prop :=
  List.length (msg E m) = sizeof_msg /\
  (forall c, nth (sizeof_msg - 1) (msg E m) c = NUL) /\
  c_str (msg E m) = Some (take (sizeof_msg - 1) (c_text src)) /\
  String.length (take (sizeof_msg - 1) (c_text src))
  = Nat.min (sizeof_msg - 1) (String.length (c_text src)) /\
  msg E m
  = list_ascii_of_string (take (sizeof_msg - 1) (c_text src))
    ++ repeat NUL
         (sizeof_msg - String.length (take (sizeof_msg - 1) (c_text src))).

(** [E] with another [lastError()]. *)
Definition with_lastError (E : Env) (g : PGInterface E -> option string)
  : Env :=
  {| PACKAGE_NAME := PACKAGE_NAME E;
     format_procedure := format_procedure E;
     PGInterface := PGInterface E;
     PGInterface_new := PGInterface_new E;
     lastError := g;
     PGType := PGType E;
     PGType_new := PGType_new E;
     AnyType := AnyType E;
     AnyType_new := AnyType_new E;
     isNull := isNull E;
     convertToDatum := convertToDatum E |}.

(** [E] with another converter. *)
Definition with_convertToDatum (E : Env)
  (conv : FunctionCallInfoData -> AnyType E -> result Datum) : Env :=
  {| PACKAGE_NAME := PACKAGE_NAME E;
     format_procedure := format_procedure E;
     PGInterface := PGInterface E;
     PGInterface_new := PGInterface_new E;
     lastError := lastError E;
     PGType := PGType E;
     PGType_new := PGType_new E;
     AnyType := AnyType E;
     AnyType_new := AnyType_new E;
     isNull := isNull E;
     convertToDatum := conv |}.

(** What [lastError()] gives for the interface object a machine holds. *)
Definition pending_error (E : Env) (m : machine E) : option string :=
  match db E m with
  | Some d => lastError E d
  | None => None
  end.

End Outcome.

(* ===================================================================== *)
(** ** A small instance *)
(* ===================================================================== *)

(** One way to fill in what [call] is compiled against, small enough to run:
    the interface object is its pending error and nothing else, the
    argument object is the list of raw arguments, a value is a list of
    integers or null, and only a one-element value converts to a datum. *)
Module Sample.
Import CString Postgres Connector.

Definition to_datum (a : option (list Z)) : result Datum :=
  match a with
  | Some [z] => Ok z
  | _ => Raise (std_exception "Internal type conversion error")
  end.

Definition sample (constructed : result (option string)) : Env :=
  {| PACKAGE_NAME := "MADlib";
     format_procedure := fun oid => "add(integer,integer)";
     PGInterface := option string;
     PGInterface_new := fun _ => constructed;
     lastError := fun d => d;
     PGType := list Datum;
     PGType_new := fun fc => Ok (args fc);
     AnyType := option (list Z);
     AnyType_new := fun p => Ok (Some (sp_get p));
     isNull := fun a => match a with None => true | Some _ => false end;
     convertToDatum := fun _ a => to_datum a |}.

(** The instance whose interface object is built without a pending error. *)
Definition plain : Env := sample (Ok None).

(** Adds its two arguments; with anything else it leaves a pending error
    and throws. *)
Definition add : MADFunction plain :=
  fun d a =>
    match a with
    | Some [x; y] => (d, Ok (Some [(x + y)%Z]))
    | _ => (Some "add needs two numbers",
            Raise (std_exception "invalid argument"))
    end.

(** Leaves [pending] in the interface object and throws [e]. *)
Definition raising (pending : option string) (e : exn) : MADFunction plain :=
  fun _ _ => (pending, Raise e).

(** Returns [v] and leaves the interface object alone. *)
Definition returning (v : option (list Z)) : MADFunction plain :=
  fun d _ => (d, Ok v).

(** [n] copies of the letter a. *)
Fixpoint letters (n : nat) : string :=
  match n with
  | O => EmptyString
  | S n' => String "a" (letters n')
  end.

Definition junk : Indeterminate :=
  {| junk_int := 7%Z; junk_char := fun _ => "?"%char |}.

(** A call with the given raw arguments and nothing reported so far. *)
Definition fresh (l : list Datum) : host :=
  {| fcinfo := {| flinfo := {| fn_oid := 16384%Z |}; args := l;
                  isnull := false |};
     reported := [] |}.

(** A call without arguments. *)
Definition bare : host := fresh [].

(** Throws an exception whose text is as long as [msg]. *)
Definition verbose : MADFunction plain :=
  raising None (std_exception (letters sizeof_msg)).

(** The instance whose interface object cannot be built: the constructor
    throws an exception whose text is as long as [msg]. *)
Definition unbuildable : Env :=
  sample (Raise (std_exception (letters sizeof_msg))).

(** The instance whose interface object cannot be allocated. *)
Definition exhausted : Env := sample (Raise (bad_alloc "std::bad_alloc")).

(** A native function of another instance that is never reached. *)
Definition idle (E : Env) : MADFunction E := fun d a => (d, Ok a).

(** Returns a two-element value, which [to_datum] refuses. *)
Definition pair : MADFunction plain := returning (Some [1%Z; 2%Z]).

(** The backend state after [add] has been called with one argument; the
    message is spelled out byte by byte, 34 being the double quote. *)
Definition add_refused : host :=
  {| fcinfo := fcinfo (fresh [1%Z]);
     reported :=
       [{| elevel := ERROR;
           ed_sqlerrcode := 50856066%Z;
           message :=
             ("Function "
              ++ String (ascii_of_nat 34)
                   ("add(integer,integer)"
                    ++ String (ascii_of_nat 34)
                         ": add needs two numbers"))%string |}] |}.

(** A call whose [fcinfo->isnull] is already set on entry. *)
Definition stale : host :=
  {| fcinfo := {| flinfo := {| fn_oid := 16384%Z |}; args := [1%Z; 2%Z];
                  isnull := true |};
     reported := [] |}.

(** A converter that refuses everything. *)
Definition refuse : FunctionCallInfoData -> AnyType plain -> result Datum :=
  fun _ _ => Raise foreign_exception.

End Sample.

(* ===================================================================== *)
(** ** Facts about C strings *)
(* ===================================================================== *)

Module CStringFacts.
Import CString.

Lemma take_length (n : nat) (s : string) : String.length (take n s) <= n.
Proof.
  revert s; induction n as [|n IH]; intros [|c r]; simpl; try lia.
  specialize (IH r); lia.
Qed.

Lemma take_length_min (n : nat) (s : string) :
  String.length (take n s) = Nat.min n (String.length s).
Proof.
  revert s; induction n as [|n IH]; intros [|c r]; simpl; try reflexivity.
  now rewrite IH.
Qed.

Lemma take_all (n : nat) (s : string) :
  String.length s <= n -> take n s = s.
Proof.
  revert s; induction n as [|n IH]; intros [|c r]; simpl; intros H;
    try reflexivity; try lia.
  f_equal; apply IH; lia.
Qed.

Lemma c_text_app (s t : string) :
  c_text s = s -> c_text (s ++ t)%string = (s ++ c_text t)%string.
Proof.
  induction s as [|c r IH]; simpl; [reflexivity|].
  destruct (is_nul c); [discriminate|].
  intros H; injection H as H. now rewrite (IH H).
Qed.

Lemma string_app_length (s t : string) :
  String.length (s ++ t)%string = String.length s + String.length t.
Proof. induction s as [|c r IH]; simpl; [reflexivity | now rewrite IH]. Qed.

Lemma strncpy_bytes_length (n : nat) (src : string) :
  List.length (strncpy_bytes n src) = n.
Proof.
  revert src; induction n as [|n IH]; intros src; [reflexivity|].
  destruct src as [|c r]; simpl.
  - now rewrite repeat_length.
  - destruct (is_nul c); simpl; [now rewrite repeat_length | now rewrite IH].
Qed.

(** [strncpy] over a whole array. *)
Lemma strncpy_whole (dst : list ascii) (src : string) :
  strncpy dst src (List.length dst)
  = Some (strncpy_bytes (List.length dst) src).
Proof.
  unfold strncpy. rewrite Nat.leb_refl, skipn_all, app_nil_r. reflexivity.
Qed.

Lemma store_length (a b : list ascii) (i : nat) (c : ascii) :
  store a i c = Some b -> List.length b = List.length a.
Proof.
  revert b i; induction a as [|x r IH]; intros b i; simpl; [discriminate|].
  destruct i as [|i].
  - intros H; injection H as <-. reflexivity.
  - destruct (store r i c) as [b'|] eqn:Hs; simpl; [|discriminate].
    intros H; injection H as <-. simpl. now rewrite (IH _ _ Hs).
Qed.

Lemma store_nth (a b : list ascii) (i : nat) (c d : ascii) :
  store a i c = Some b -> nth i b d = c.
Proof.
  revert b i; induction a as [|x r IH]; intros b i; simpl; [discriminate|].
  destruct i as [|i].
  - intros H; injection H as <-. reflexivity.
  - destruct (store r i c) as [b'|] eqn:Hs; simpl; [|discriminate].
    intros H; injection H as <-. simpl. now apply IH.
Qed.

Lemma store_in_bounds (a : list ascii) (i : nat) (c : ascii) :
  i < List.length a -> exists b, store a i c = Some b.
Proof.
  revert i; induction a as [|x r IH]; intros i; simpl; [lia|].
  destruct i as [|i]; intros H.
  - now exists (c :: r).
  - destruct (IH i) as [b Hb]; [lia|]. rewrite Hb. now exists (x :: b).
Qed.

Lemma store_NUL_repeat (n : nat) :
  exists b, store (repeat NUL (S n)) n NUL = Some b /\
            c_str b = Some EmptyString.
Proof.
  destruct n as [|n].
  - now exists [NUL].
  - destruct (store_in_bounds (repeat NUL (S n)) n NUL) as [b Hb].
    { rewrite repeat_length. lia. }
    exists (NUL :: b). split; [|reflexivity].
    change (store (repeat NUL (S (S n))) (S n) NUL)
      with (option_map (cons NUL) (store (repeat NUL (S n)) n NUL)).
    now rewrite Hb.
Qed.

(** The terminator stored behind a [strncpy] that filled the array: the
    array then reads as the source text cut to one byte less than the
    array holds. *)
Lemma strncpy_terminated (n : nat) (src : string) :
  exists b,
    store (strncpy_bytes (S n) src) n NUL = Some b /\
    c_str b = Some (take n (c_text src)).
Proof.
  revert src; induction n as [|n IH]; intros src.
  - destruct src as [|c r]; simpl; [now exists [NUL]|].
    destruct (is_nul c); now exists [NUL].
  - destruct src as [|c r].
    + destruct (store_NUL_repeat (S n)) as [b [Hb Hr]].
      exists b. split; [exact Hb|]. rewrite Hr. reflexivity.
    + change (strncpy_bytes (S (S n)) (String c r))
        with (if is_nul c then repeat NUL (S (S n))
              else c :: strncpy_bytes (S n) r).
      change (c_text (String c r))
        with (if is_nul c then EmptyString else String c (c_text r)).
      destruct (is_nul c) eqn:Hc.
      * destruct (store_NUL_repeat (S n)) as [b [Hb Hr]].
        exists b. split; [exact Hb|]. rewrite Hr. reflexivity.
      * destruct (IH r) as [b [Hb Hr]].
        exists (c :: b). split.
        -- change (store (c :: strncpy_bytes (S n) r) (S n) NUL)
             with (option_map (cons c) (store (strncpy_bytes (S n) r) n NUL)).
           now rewrite Hb.
        -- change (c_str (c :: b))
             with (if is_nul c then Some EmptyString
                   else option_map (String c) (c_str b)).
           rewrite Hc, Hr. reflexivity.
Qed.

Lemma store_last_NUL_repeat (n : nat) :
  store (repeat NUL (S n)) n NUL = Some (repeat NUL (S n)).
Proof.
  induction n as [|n IH]; [reflexivity|].
  change (store (repeat NUL (S (S n))) (S n) NUL)
    with (option_map (cons NUL) (store (repeat NUL (S n)) n NUL)).
  now rewrite IH.
Qed.

(** The array behind [strncpy] and the terminator, byte by byte: the text
    cut to one byte less than the array holds, then NUL to the end. *)
Lemma strncpy_terminated_shape (n : nat) (src : string) :
  store (strncpy_bytes (S n) src) n NUL
  = Some (list_ascii_of_string (take n (c_text src))
          ++ repeat NUL (S n - String.length (take n (c_text src)))).
Proof.
  revert src; induction n as [|n IH]; intros src.
  - destruct src as [|c r]; [reflexivity|].
    cbn [strncpy_bytes]. destruct (is_nul c); reflexivity.
  - destruct src as [|c r].
    + exact (store_last_NUL_repeat (S n)).
    + change (strncpy_bytes (S (S n)) (String c r))
        with (if is_nul c then repeat NUL (S (S n))
              else c :: strncpy_bytes (S n) r).
      change (c_text (String c r))
        with (if is_nul c then EmptyString else String c (c_text r)).
      destruct (is_nul c).
      * exact (store_last_NUL_repeat (S n)).
      * change (store (c :: strncpy_bytes (S n) r) (S n) NUL)
          with (option_map (cons c) (store (strncpy_bytes (S n) r) n NUL)).
        rewrite IH. reflexivity.
Qed.

Lemma string_app_inv_head (a b c : string) :
  (a ++ b)%string = (a ++ c)%string -> b = c.
Proof.
  induction a as [|x a IH]; cbn [append]; intros H; [exact H|].
  injection H as H. exact (IH H).
Qed.

(** A text is kept whole by [take] exactly when it is short enough. *)
Lemma take_whole_iff (n : nat) (s : string) :
  take n s = s <-> String.length s <= n.
Proof.
  split; [|apply take_all].
  intros H. rewrite <- H. apply take_length.
Qed.

End CStringFacts.

(* ===================================================================== *)
(** ** Facts about the connector *)
(* ===================================================================== *)

Module ConnectorFacts.
Import CString Postgres Connector Outcome CStringFacts.
Local Open Scope monad_scope.

Section Facts.
Context (E : Env).

#[local] Opaque sizeof_msg.

Lemma sizeof_msg_S : sizeof_msg = S budget.
Proof. reflexivity. Qed.

Lemma bind_run {A B} (c : M E A) (k : A -> M E B) (m : machine E) :
  (x <- c ;; k x) m =
  match c m with
  | (m', Normal a) => k a m'
  | (m', Return d) => (m', Return d)
  | (m', Throw e) => (m', Throw e)
  | (m', Longjmp) => (m', Longjmp)
  | (m', Fault) => (m', Fault)
  end.
Proof. reflexivity. Qed.

Lemma enter_msg_length j h : List.length (msg E (enter E j h)) = sizeof_msg.
Proof. unfold enter. cbn [msg]. now rewrite length_map, length_seq. Qed.

(** A handler's two statements. *)
Lemma classify_run (code : Z) (src : string) (m : machine E) :
  List.length (msg E m) = sizeof_msg ->
  (assign_sqlerrcode E code ;; strncpy_msg E src sizeof_msg) m
  = (set_msg E (strncpy_bytes sizeof_msg src) (set_sqlerrcode E code m), Normal tt).
Proof.
  intros Hlen. rewrite bind_run. unfold assign_sqlerrcode, strncpy_msg.
  cbn [msg set_sqlerrcode]. rewrite <- Hlen at 1. rewrite strncpy_whole, Hlen.
  reflexivity.
Qed.

Lemma report_error_run (m : machine E) (src : string) :
  msg E m = strncpy_bytes sizeof_msg src ->
  exists b,
    report_error E m
    = (set_hst E {| fcinfo := fcinfo (hst E m);
                    reported := reported (hst E m)
                                ++ [error_report E (hst E m) (sqlerrcode E m) src] |}
         (set_msg E b m), Longjmp)
    /\ store (msg E m) budget NUL = Some b
    /\ c_str b = Some (take budget (c_text src)).
Proof.
  intros Hmsg. destruct (strncpy_terminated budget src) as [b [Hb Hr]].
  exists b. rewrite Hmsg, sizeof_msg_S. split; [|split; assumption].
  unfold report_error. rewrite bind_run. unfold store_msg at 1.
  change (sizeof_msg - 1) with budget. rewrite Hmsg, sizeof_msg_S, Hb.
  rewrite bind_run. unfold get_sqlerrcode at 1. rewrite bind_run.
  unfold get_fcinfo at 1. rewrite bind_run. unfold read_msg at 1.
  cbn [msg set_msg]. rewrite Hr. reflexivity.
Qed.


(** What the inner try block does, statement by statement. *)
Lemma execute_run (f : MADFunction E) (m : machine E) (d : PGInterface E) :
  db E m = Some d ->
  execute E f m =
  match PGType_new E (fcinfo (hst E m)) with
  | Raise e => (m, Throw e)
  | Ok arg =>
      match AnyType_new E {| sp_get := arg; sp_deleter := NoDeleter |} with
      | Raise e => (m, Throw e)
      | Ok a =>
          match f d a with
          | (d', Raise e) => (set_db E (Some d') m, Throw e)
          | (d', Ok result) =>
              if isNull E result then PG_RETURN_NULL E (set_db E (Some d') m)
              else match convertToDatum E (fcinfo (hst E m)) result with
                   | Raise e => (set_db E (Some d') m, Throw e)
                   | Ok x => (set_db E (Some d') m, Return x)
                   end
          end
      end
  end.
Proof.
  intros Hd. unfold execute. rewrite bind_run. unfold get_fcinfo at 1.
  rewrite bind_run. unfold lift at 1.
  destruct (PGType_new E (fcinfo (hst E m))) as [arg|e]; [|reflexivity].
  rewrite bind_run. unfold lift at 1.
  destruct (AnyType_new E _) as [a|e]; [|reflexivity].
  rewrite bind_run. unfold invoke. rewrite Hd.
  destruct (f d a) as [d' [result|e]]; cbn [lift]; [|reflexivity].
  destruct (isNull E result); [reflexivity|].
  rewrite bind_run. unfold lift.
  destruct (convertToDatum E (fcinfo (hst E m)) result); reflexivity.
Qed.

(** The inner try block returns or throws, leaves the locals [sqlerrcode]
    and [msg] alone, and touches the backend state only to flag a null
    result. *)
Lemma execute_frame (f : MADFunction E) (m m' : machine E)
  (c : completion unit) (d : PGInterface E) :
  db E m = Some d ->
  execute E f m = (m', c) ->
  msg E m' = msg E m /\ sqlerrcode E m' = sqlerrcode E m /\
  (exists d', db E m' = Some d') /\
  match c with
  | Throw _ => hst E m' = hst E m
  | Return x =>
      hst E m' = hst E m \/
      (x = 0%Z /\
       hst E m' = {| fcinfo := set_isnull true (fcinfo (hst E m));
                     reported := reported (hst E m) |})
  | _ => False
  end.
Proof.
  intros Hd Hex. rewrite (execute_run f m d Hd) in Hex.
  destruct (PGType_new E _) as [arg|e].
  2:{ injection Hex as <- <-. repeat split; eauto. }
  destruct (AnyType_new E _) as [a|e].
  2:{ injection Hex as <- <-. repeat split; eauto. }
  destruct (f d a) as [d' [result|e]].
  2:{ injection Hex as <- <-. repeat split; cbn; eauto. }
  destruct (isNull E result).
  { unfold PG_RETURN_NULL in Hex. injection Hex as <- <-.
    repeat split; cbn; eauto. }
  destruct (convertToDatum E _ result) as [x|e];
    injection Hex as <- <-; repeat split; cbn; eauto.
Qed.


Lemma try_blocks_ctor_raises (f : MADFunction E) j h e :
  PGInterface_new E (fcinfo h) = Raise e ->
  try_blocks E f (enter E j h)
  = (classified E ERRCODE_INVALID_PARAMETER_VALUE (outer_text e) (enter E j h),
     Normal tt).
Proof.
  intros Hnew. unfold try_blocks, try_catch, declare_db.
  change (hst E (enter E j h)) with h. rewrite Hnew.
  destruct e; cbn [find_handler outer_handlers selects outer_text];
    apply classify_run, enter_msg_length.
Qed.

Lemma try_blocks_returns (f : MADFunction E) j h d m' x :
  PGInterface_new E (fcinfo h) = Ok d ->
  execute E f (executing E j h d) = (m', Return x) ->
  try_blocks E f (enter E j h) = (set_db E None m', Return x).
Proof.
  intros Hnew Hex. unfold try_blocks, try_catch, declare_db.
  change (hst E (enter E j h)) with h. rewrite Hnew.
  fold (executing E j h d). rewrite Hex. reflexivity.
Qed.

Lemma try_blocks_throws (f : MADFunction E) j h d m' e d' :
  PGInterface_new E (fcinfo h) = Ok d ->
  execute E f (executing E j h d) = (m', Throw e) ->
  db E m' = Some d' ->
  try_blocks E f (enter E j h)
  = (classified E (inner_code e) (inner_text E e (lastError E d'))
       (set_db E None m'), Normal tt).
Proof.
  intros Hnew Hex Hd'.
  assert (Hlen : List.length (msg E m') = sizeof_msg).
  { destruct (execute_frame f (executing E j h d) m' _ d eq_refl Hex) as [-> _].
    apply enter_msg_length. }
  unfold try_blocks, try_catch, declare_db.
  change (hst E (enter E j h)) with h. rewrite Hnew.
  fold (executing E j h d). rewrite Hex.
  destruct e as [w|w|]; cbn [find_handler inner_handlers selects].
  - rewrite (classify_run _ _ _ Hlen). reflexivity.
  - rewrite bind_run. unfold assign_sqlerrcode at 1. rewrite bind_run.
    unfold get_db at 1. cbn [db set_sqlerrcode]. rewrite Hd'.
    unfold strncpy_msg. cbn [msg]. rewrite <- Hlen at 1.
    rewrite strncpy_whole, Hlen. reflexivity.
  - cbn [find_handler outer_handlers selects].
    apply classify_run. exact Hlen.
Qed.

(** Once a handler has run, the rest of [call] is the report. *)
Lemma reported_after_handler (tb : M E unit) (last : M E unit)
  (m0 m1 : machine E) (code : Z) (src : string) :
  tb m0 = (classified E code src m1, Normal tt) ->
  exists b,
    store (strncpy_bytes sizeof_msg src) budget NUL = Some b /\
    c_str b = Some (take budget (c_text src)) /\
    (tb ;; report_error E) m0
    = (set_hst E {| fcinfo := fcinfo (hst E m1);
                    reported := reported (hst E m1)
                                ++ [error_report E (hst E m1) code src] |}
         (set_msg E b (classified E code src m1)), Longjmp) /\
    (tb ;; report_error E ;; last) m0 = (tb ;; report_error E) m0.
Proof.
  intros Htb.
  destruct (report_error_run (classified E code src m1) src eq_refl)
    as [b [Hrun [Hb Hr]]].
  exists b. split; [exact Hb|]. split; [exact Hr|].
  assert (Hgo : (tb ;; report_error E) m0
                = report_error E (classified E code src m1)).
  { rewrite bind_run, Htb. reflexivity. }
  split.
  - rewrite Hgo, Hrun. reflexivity.
  - rewrite Hgo. rewrite bind_run, Htb. cbv beta iota.
    rewrite bind_run, Hrun. reflexivity.
Qed.

Lemma call_then_fails (last : M E unit) (f : MADFunction E) j h code src m1 :
  try_blocks E f (enter E j h) = (classified E code src m1, Normal tt) ->
  hst E m1 = h ->
  call_then E last f j h = fails_with E h code src.
Proof.
  intros Htb Hh.
  destruct (reported_after_handler _ last _ _ _ _ Htb) as [b [_ [_ [Hg Hl]]]].
  unfold call_then. rewrite Hl, Hg. cbn [hst set_hst]. rewrite Hh.
  reflexivity.
Qed.

Lemma call_then_returns (last : M E unit) (f : MADFunction E) j h m1 x :
  try_blocks E f (enter E j h) = (m1, Return x) ->
  call_then E last f j h = (hst E m1, Return x).
Proof.
  intros Htb. unfold call_then. rewrite bind_run, Htb. reflexivity.
Qed.

End Facts.

Lemma codes_differ : ERRCODE_OUT_OF_MEMORY <> ERRCODE_INVALID_PARAMETER_VALUE.
Proof. vm_compute. discriminate. Qed.

Lemma fails_with_code (E : Env) (h : host) (c1 c2 : Z) (t1 t2 : string) :
  fails_with E h c1 t1 = fails_with E h c2 t2 -> c1 = c2.
Proof.
  unfold fails_with. intros H. injection H as H.
  apply app_inv_head in H. injection H as H _. exact H.
Qed.

(** The fixed text fits the buffer when the package name is an ordinary
    literal. *)
Lemma out_of_memory_text_fits (E : Env) :
  c_text (PACKAGE_NAME E) = PACKAGE_NAME E ->
  String.length (PACKAGE_NAME E) <= 1917 ->
  take budget (c_text (out_of_memory_text E)) = out_of_memory_text E.
Proof.
  intros Hnul Hlen. unfold out_of_memory_text.
  assert (Ht : c_text (out_of_memory_text E) = out_of_memory_text E).
  { unfold out_of_memory_text.
    rewrite (c_text_app "Memory allocation failed. Typically, this indicates that ") by reflexivity.
    rewrite (c_text_app (PACKAGE_NAME E)) by exact Hnul.
    reflexivity. }
  unfold out_of_memory_text in Ht. rewrite Ht.
  apply take_all. rewrite !string_app_length.
  change budget with 2047. cbn [String.length]. lia.
Qed.

Lemma unknown_exception_text_fits :
  take budget (c_text unknown_exception_text) = unknown_exception_text.
Proof. vm_compute. reflexivity. Qed.

Lemma inner_failure (E : Env) (last : M E unit) (f : MADFunction E)
  (j : Indeterminate) (h : host) (d d' : PGInterface E) (m' : machine E)
  (e : exn) :
  PGInterface_new E (fcinfo h) = Ok d ->
  execute E f (executing E j h d) = (m', Throw e) ->
  db E m' = Some d' ->
  call_then E last f j h
  = fails_with E h (inner_code e) (inner_text E e (lastError E d')).
Proof.
  intros Hnew Hex Hd'.
  destruct (execute_frame E f (executing E j h d) m' _ d eq_refl Hex)
    as [_ [_ [_ Hh]]].
  apply (call_then_fails E _ f j h _ _ (set_db E None m')).
  - exact (try_blocks_throws E f j h d m' _ d' Hnew Hex Hd').
  - exact Hh.
Qed.

Lemma outer_failure (E : Env) (last : M E unit) (f : MADFunction E)
  (j : Indeterminate) (h : host) (e : exn) :
  PGInterface_new E (fcinfo h) = Raise e ->
  call_then E last f j h
  = fails_with E h ERRCODE_INVALID_PARAMETER_VALUE (outer_text e).
Proof.
  intros Hnew.
  apply (call_then_fails E _ f j h _ _ (enter E j h)).
  - exact (try_blocks_ctor_raises E f j h e Hnew).
  - reflexivity.
Qed.

Lemma success (E : Env) (last : M E unit) (f : MADFunction E)
  (j : Indeterminate) (h : host) (d : PGInterface E) (m' : machine E)
  (x : Datum) :
  PGInterface_new E (fcinfo h) = Ok d ->
  execute E f (executing E j h d) = (m', Return x) ->
  call_then E last f j h = (hst E m', Return x).
Proof.
  intros Hnew Hex.
  rewrite (call_then_returns E last f j h _ x
             (try_blocks_returns E f j h d m' x Hnew Hex)).
  reflexivity.
Qed.

(** Every run of the try blocks either returns out of the inner body or
    ends in a handler that has chosen a code and copied a text. *)
Lemma try_blocks_cases (E : Env) (f : MADFunction E) (j : Indeterminate)
  (h : host) :
  (exists d m' x,
      PGInterface_new E (fcinfo h) = Ok d /\
      execute E f (executing E j h d) = (m', Return x) /\
      try_blocks E f (enter E j h) = (set_db E None m', Return x))
  \/
  (exists code src m1,
      ((exists e, PGInterface_new E (fcinfo h) = Raise e) \/
       (exists d m' e, PGInterface_new E (fcinfo h) = Ok d /\
                       execute E f (executing E j h d) = (m', Throw e))) /\
      (code = ERRCODE_OUT_OF_MEMORY \/ code = ERRCODE_INVALID_PARAMETER_VALUE) /\
      hst E m1 = h /\
      try_blocks E f (enter E j h) = (classified E code src m1, Normal tt)).
Proof.
  destruct (PGInterface_new E (fcinfo h)) as [d|e] eqn:Hnew.
  - destruct (execute E f (executing E j h d)) as [m' c] eqn:Hex.
    destruct (execute_frame E f (executing E j h d) m' c d eq_refl Hex)
      as [_ [_ [[d' Hd'] Hc]]].
    destruct c as [[]|x|e| |]; try contradiction.
    + left. exists d, m', x.
      split; [reflexivity|]. split; [exact Hex|].
      exact (try_blocks_returns E f j h d m' x Hnew Hex).
    + right.
      exists (inner_code e), (inner_text E e (lastError E d')), (set_db E None m').
      split; [right; now exists d, m', e|].
      split; [destruct e; cbn; auto|].
      split; [exact Hc|].
      exact (try_blocks_throws E f j h d m' e d' Hnew Hex Hd').
  - right.
    exists ERRCODE_INVALID_PARAMETER_VALUE, (outer_text e), (enter E j h).
    split; [left; now exists e|].
    split; [now right|].
    split; [reflexivity|].
    exact (try_blocks_ctor_raises E f j h e Hnew).
Qed.

Lemma strncpy_msg_terminated (src : string) :
  exists b,
    store (strncpy_bytes sizeof_msg src) budget NUL = Some b /\
    c_str b = Some (take budget (c_text src)).
Proof. exact (strncpy_terminated budget src). Qed.

Lemma fill_run (E : Env) (m : machine E) (src : string) :
  List.length (msg E m) = sizeof_msg ->
  exists b,
    (strncpy_msg E src sizeof_msg ;; store_msg E (sizeof_msg - 1) NUL) m
    = (set_msg E b m, Normal tt) /\
    store (strncpy_bytes sizeof_msg src) budget NUL = Some b.
Proof.
  intros Hlen.
  destruct (strncpy_msg_terminated src) as [b [Hb _]].
  exists b. split; [|exact Hb].
  rewrite bind_run. unfold strncpy_msg. rewrite <- Hlen at 1.
  rewrite strncpy_whole, Hlen. cbv beta iota. unfold store_msg.
  cbn [msg set_msg]. change (sizeof_msg - 1) with budget.
  rewrite Hb. reflexivity.
Qed.

Lemma terminated_buffer (src : string) (b : list ascii) (c : ascii) :
  store (strncpy_bytes sizeof_msg src) budget NUL = Some b ->
  List.length b = sizeof_msg /\
  nth budget b c = NUL /\
  c_str b = Some (take budget (c_text src)).
Proof.
  intros Hb. split; [|split].
  - rewrite (store_length _ _ _ _ Hb). apply strncpy_bytes_length.
  - exact (store_nth _ _ _ _ _ Hb).
  - destruct (strncpy_msg_terminated src) as [b' [Hb' Hr]]. congruence.
Qed.

Lemma try_blocks_ext (E : Env) (f g : MADFunction E) (j : Indeterminate)
  (h : host) :
  (forall d, PGInterface_new E (fcinfo h) = Ok d ->
             execute E f (executing E j h d) = execute E g (executing E j h d)) ->
  try_blocks E f (enter E j h) = try_blocks E g (enter E j h).
Proof.
  intros Hfg. unfold try_blocks, try_catch, declare_db.
  change (hst E (enter E j h)) with h.
  destruct (PGInterface_new E (fcinfo h)) as [d|e]; [|reflexivity].
  fold (executing E j h d). rewrite (Hfg d eq_refl). reflexivity.
Qed.

(** A text that fits the budget is reported whole. *)
Lemma fails_with_fits (E : Env) (h : host) (code : Z) (text : string) :
  String.length (c_text text) <= budget ->
  fails_with E h code text
  = ({| fcinfo := fcinfo h;
        reported := reported h ++
          [{| elevel := ERROR;
              ed_sqlerrcode := code;
              message := errmsg_Function (symbol_name E h) (c_text text) |}] |},
     Longjmp).
Proof.
  intros Hlen. unfold fails_with, error_report.
  now rewrite (take_all _ _ Hlen).
Qed.


(** The values the locals hold on entry do not show in the inner try
    block. *)
Lemma execute_indeterminate (E : Env) (f : MADFunction E)
  (j j' : Indeterminate) (h : host) (d : PGInterface E) :
  snd (execute E f (executing E j h d)) = snd (execute E f (executing E j' h d))
  /\ hst E (fst (execute E f (executing E j h d)))
     = hst E (fst (execute E f (executing E j' h d)))
  /\ db E (fst (execute E f (executing E j h d)))
     = db E (fst (execute E f (executing E j' h d))).
Proof.
  rewrite (execute_run E f (executing E j h d) d eq_refl).
  rewrite (execute_run E f (executing E j' h d) d eq_refl).
  change (hst E (executing E j h d)) with h.
  change (hst E (executing E j' h d)) with h.
  destruct (PGType_new E (fcinfo h)) as [arg|e]; [|repeat split].
  destruct (AnyType_new E _) as [a|e]; [|repeat split].
  destruct (f d a) as [d' [result|e]]; [|repeat split].
  destruct (isNull E result); [repeat split|].
  destruct (convertToDatum E (fcinfo h) result); repeat split.
Qed.

(** Nor do they show in the call. *)
Lemma call_indeterminate (E : Env) (f : MADFunction E)
  (j j' : Indeterminate) (h : host) :
  call E f j h = call E f j' h.
Proof.
  unfold call.
  destruct (PGInterface_new E (fcinfo h)) as [d|e] eqn:Hnew.
  2:{ now rewrite !(outer_failure E _ f _ h e Hnew). }
  destruct (execute_indeterminate E f j j' h d) as [Hc [Hh Hd]].
  destruct (execute E f (executing E j h d)) as [m1 c1] eqn:H1.
  destruct (execute E f (executing E j' h d)) as [m2 c2] eqn:H2.
  cbn [fst snd] in Hc, Hh, Hd. subst c2.
  destruct (execute_frame E f (executing E j h d) m1 c1 d eq_refl H1)
    as [_ [_ [[d' Hd'] Hk]]].
  destruct c1 as [[]|x|e| |]; try contradiction.
  - rewrite (success E _ f j h d m1 x Hnew H1).
    rewrite (success E _ f j' h d m2 x Hnew H2). now rewrite Hh.
  - rewrite (inner_failure E _ f j h d d' m1 e Hnew H1 Hd').
    rewrite Hd in Hd'.
    now rewrite (inner_failure E _ f j' h d d' m2 e Hnew H2 Hd').
Qed.

(** The inner try block never calls [lastError()]. *)
Lemma execute_lastError (E : Env) (g : PGInterface E -> option string)
  (f : MADFunction E) (j : Indeterminate) (h : host) (d : PGInterface E) :
  snd (execute (with_lastError E g) f (executing (with_lastError E g) j h d))
  = snd (execute E f (executing E j h d)).
Proof.
  rewrite (execute_run (with_lastError E g) f
             (executing (with_lastError E g) j h d) d eq_refl).
  rewrite (execute_run E f (executing E j h d) d eq_refl).
  change (hst (with_lastError E g) (executing (with_lastError E g) j h d))
    with h.
  change (hst E (executing E j h d)) with h.
  change (PGType_new (with_lastError E g)) with (PGType_new E).
  change (AnyType_new (with_lastError E g)) with (AnyType_new E).
  change (isNull (with_lastError E g)) with (isNull E).
  change (convertToDatum (with_lastError E g)) with (convertToDatum E).
  generalize (executing (with_lastError E g) j h d) as m1.
  generalize (executing E j h d) as m2. intros m2 m1.
  destruct (PGType_new E (fcinfo h)) as [arg|e]; [|reflexivity].
  destruct (AnyType_new E _) as [a|e]; [|reflexivity].
  destruct (f d a) as [d' [result|e]]; [|reflexivity].
  destruct (isNull E result); [reflexivity|].
  destruct (convertToDatum E (fcinfo h) result); reflexivity.
Qed.

Lemma errmsg_Function_length (name text : string) :
  String.length (errmsg_Function name text)
  = 13 + String.length name + String.length text.
Proof.
  unfold errmsg_Function.
  change (String.length
            ("Function " ++ String dquote (name ++ String dquote (": " ++ text))))
    with (10 + String.length (name ++ String dquote (": " ++ text))).
  rewrite string_app_length. cbn [String.length append]. lia.
Qed.

(** [call] read off the way the inner try block ends. *)
Lemma call_of_execute (E : Env) (last : M E unit) (f : MADFunction E)
  (j : Indeterminate) (h : host) (d : PGInterface E) (m' : machine E)
  (c : completion unit) :
  PGInterface_new E (fcinfo h) = Ok d ->
  execute E f (executing E j h d) = (m', c) ->
  call_then E last f j h =
  match c with
  | Return x => (hst E m', Return x)
  | Throw e =>
      fails_with E h (inner_code e) (inner_text E e (pending_error E m'))
  | _ => (hst E m', c)
  end.
Proof.
  intros Hnew Hex.
  destruct (execute_frame E f (executing E j h d) m' c d eq_refl Hex)
    as [_ [_ [[d' Hd'] Hc]]].
  destruct c as [[]|x|e| |]; try contradiction.
  - exact (success E last f j h d m' x Hnew Hex).
  - unfold pending_error. rewrite Hd'.
    exact (inner_failure E last f j h d d' m' e Hnew Hex Hd').
Qed.

Lemma execute_lastError_state (E : Env) (g : PGInterface E -> option string)
  (f : MADFunction E) (j : Indeterminate) (h : host) (d : PGInterface E) :
  hst (with_lastError E g)
    (fst (execute (with_lastError E g) f
            (executing (with_lastError E g) j h d)))
  = hst E (fst (execute E f (executing E j h d)))
  /\
  db (with_lastError E g)
    (fst (execute (with_lastError E g) f
            (executing (with_lastError E g) j h d)))
  = db E (fst (execute E f (executing E j h d))).
Proof.
  rewrite (execute_run (with_lastError E g) f
             (executing (with_lastError E g) j h d) d eq_refl).
  rewrite (execute_run E f (executing E j h d) d eq_refl).
  change (hst (with_lastError E g) (executing (with_lastError E g) j h d))
    with h.
  change (hst E (executing E j h d)) with h.
  change (PGType_new (with_lastError E g)) with (PGType_new E).
  change (AnyType_new (with_lastError E g)) with (AnyType_new E).
  change (isNull (with_lastError E g)) with (isNull E).
  change (convertToDatum (with_lastError E g)) with (convertToDatum E).
  assert (Hh : hst (with_lastError E g) (executing (with_lastError E g) j h d)
               = hst E (executing E j h d)) by exact (eq_refl h).
  assert (Hd : db (with_lastError E g) (executing (with_lastError E g) j h d)
               = db E (executing E j h d)) by exact (eq_refl (Some d)).
  revert Hh Hd.
  generalize (executing (with_lastError E g) j h d) as m1.
  generalize (executing E j h d) as m2. intros m2 m1 Hh Hd.
  destruct (PGType_new E (fcinfo h)) as [arg|e]; [|split; assumption].
  destruct (AnyType_new E _) as [a|e]; [|split; assumption].
  destruct (f d a) as [d' [result|e]]; [|split; [exact Hh|reflexivity]].
  destruct (isNull E result).
  { unfold PG_RETURN_NULL. cbn [fst hst db set_hst set_db].
    split; [now rewrite Hh|reflexivity]. }
  destruct (convertToDatum E (fcinfo h) result);
    (split; [exact Hh|reflexivity]).
Qed.

Lemma execute_convertToDatum (E : Env)
  (conv : FunctionCallInfoData -> AnyType E -> result Datum)
  (f : MADFunction E) (j : Indeterminate) (h : host) (d : PGInterface E) :
  (forall arg a d' result,
      PGType_new E (fcinfo h) = Ok arg ->
      AnyType_new E {| sp_get := arg; sp_deleter := NoDeleter |} = Ok a ->
      f d a = (d', Ok result) ->
      isNull E result = false ->
      conv (fcinfo h) result = convertToDatum E (fcinfo h) result) ->
  snd (execute (with_convertToDatum E conv) f
         (executing (with_convertToDatum E conv) j h d))
  = snd (execute E f (executing E j h d))
  /\
  hst (with_convertToDatum E conv)
    (fst (execute (with_convertToDatum E conv) f
            (executing (with_convertToDatum E conv) j h d)))
  = hst E (fst (execute E f (executing E j h d)))
  /\
  db (with_convertToDatum E conv)
    (fst (execute (with_convertToDatum E conv) f
            (executing (with_convertToDatum E conv) j h d)))
  = db E (fst (execute E f (executing E j h d))).
Proof.
  intros Hconv.
  rewrite (execute_run (with_convertToDatum E conv) f
             (executing (with_convertToDatum E conv) j h d) d eq_refl).
  rewrite (execute_run E f (executing E j h d) d eq_refl).
  change (hst (with_convertToDatum E conv)
            (executing (with_convertToDatum E conv) j h d)) with h.
  change (hst E (executing E j h d)) with h.
  change (PGType_new (with_convertToDatum E conv)) with (PGType_new E).
  change (AnyType_new (with_convertToDatum E conv)) with (AnyType_new E).
  change (isNull (with_convertToDatum E conv)) with (isNull E).
  change (convertToDatum (with_convertToDatum E conv)) with conv.
  assert (Hh : hst (with_convertToDatum E conv)
                 (executing (with_convertToDatum E conv) j h d)
               = hst E (executing E j h d)) by exact (eq_refl h).
  assert (Hd : db (with_convertToDatum E conv)
                 (executing (with_convertToDatum E conv) j h d)
               = db E (executing E j h d)) by exact (eq_refl (Some d)).
  revert Hh Hd.
  generalize (executing (with_convertToDatum E conv) j h d) as m1.
  generalize (executing E j h d) as m2. intros m2 m1 Hh Hd.
  destruct (PGType_new E (fcinfo h)) as [arg|e] eqn:Harg;
    [|repeat split; assumption].
  destruct (AnyType_new E _) as [a|e] eqn:Hany; [|repeat split; assumption].
  destruct (f d a) as [d' [result|e]] eqn:Hf;
    [|split; [reflexivity|split; [exact Hh|reflexivity]]].
  destruct (isNull E result) eqn:Hnull.
  { unfold PG_RETURN_NULL. cbn [fst snd hst db set_hst set_db].
    split; [reflexivity|]. split; [now rewrite Hh|reflexivity]. }
  rewrite (Hconv arg a d' result eq_refl Hany Hf Hnull).
  destruct (convertToDatum E (fcinfo h) result);
    (split; [reflexivity|split; [exact Hh|reflexivity]]).
Qed.

#[local] Opaque sizeof_msg.

(** [msg] once the terminator is stored, byte by byte. *)
Lemma msg_shape (src : string) (b : list ascii) :
  store (strncpy_bytes sizeof_msg src) budget NUL = Some b ->
  b = list_ascii_of_string (take budget (c_text src))
      ++ repeat NUL (sizeof_msg - String.length (take budget (c_text src))).
Proof.
  intros Hb. rewrite sizeof_msg_S in Hb |- *.
  rewrite (strncpy_terminated_shape budget src) in Hb.
  now injection Hb as <-.
Qed.

#[local] Transparent sizeof_msg.

(** The format keeps texts apart. *)
Lemma errmsg_Function_inj (name a b : string) :
  errmsg_Function name a = errmsg_Function name b -> a = b.
Proof.
  unfold errmsg_Function. intros H.
  apply string_app_inv_head in H. injection H as H.
  apply string_app_inv_head in H. injection H as H.
  exact H.
Qed.

(** A report that carries a text whole has not cut it. *)
Lemma fails_with_whole (E : Env) (h : host) (code : Z) (text : string) :
  fails_with E h code text
  = ({| fcinfo := fcinfo h;
        reported := reported h ++
          [{| elevel := ERROR;
              ed_sqlerrcode := code;
              message := errmsg_Function (symbol_name E h) (c_text text) |}] |},
     Longjmp) ->
  take budget (c_text text) = c_text text.
Proof.
  unfold fails_with, error_report.
  remember (errmsg_Function (symbol_name E h) (take budget (c_text text)))
    as x eqn:Hx.
  remember (errmsg_Function (symbol_name E h) (c_text text)) as y eqn:Hy.
  intros H. injection H as H. apply app_inv_head in H. injection H as H.
  subst x y. exact (errmsg_Function_inj _ _ _ H).
Qed.

(** The machine at the [ereport] once a handler has copied [src]. *)
Lemma guarded_call_cut (E : Env) (f : MADFunction E) (j : Indeterminate)
  (h : host) (code : Z) (src : string) (m1 : machine E) :
  try_blocks E f (enter E j h) = (classified E code src m1, Normal tt) ->
  exists m,
    guarded_call E f j h = (m, Longjmp) /\
    sqlerrcode E m = code /\
    cut_in_msg E src m.
Proof.
  intros Htb.
  destruct (reported_after_handler E _ (ret tt) _ _ _ _ Htb)
    as [b [Hb [Hr [Hg _]]]].
  eexists. split; [exact Hg|]. split; [reflexivity|].
  unfold cut_in_msg. cbn [msg set_hst set_msg].
  destruct (terminated_buffer src b NUL Hb) as [Hl _].
  split; [exact Hl|]. split.
  { intros c. exact (proj1 (proj2 (terminated_buffer src b c Hb))). }
  split; [exact Hr|]. split; [apply take_length_min|].
  exact (msg_shape src b Hb).
Qed.

End ConnectorFacts.

(* ===================================================================== *)
(** ** Properties of the entry point *)
(* ===================================================================== *)

Import CString Postgres Connector Outcome Sample CStringFacts ConnectorFacts.
Local Open Scope monad_scope.

(** C1, as amended.  When the interface object has been built and the body
    of the inner try block ends in a [std::bad_alloc] (the argument object,
    the native function or the conversion of the result fails to
    allocate), [call] reports [ERRCODE_OUT_OF_MEMORY] once and leaves
    through the error channel.  The text is the fixed one around
    [PACKAGE_NAME], cut to what [msg] holds; the text [w] the exception
    carries occurs nowhere in the report.  With a package name that is an
    ordinary literal of at most 1917 bytes the fixed text is reported
    whole. *)
Theorem allocation_failure_is_out_of_memory
  (E : Env) (f : MADFunction E) (j : Indeterminate) (h : host)
  (d : PGInterface E) (m' : machine E) (w : string) :
  PGInterface_new E (fcinfo h) = Ok d ->
  execute E f (executing E j h d) = (m', Throw (bad_alloc w)) ->
  call E f j h = fails_with E h ERRCODE_OUT_OF_MEMORY (out_of_memory_text E)
  /\ (c_text (PACKAGE_NAME E) = PACKAGE_NAME E ->
      String.length (PACKAGE_NAME E) <= 1917 ->
      call E f j h
      = ({| fcinfo := fcinfo h;
            reported := reported h ++
              [{| elevel := ERROR;
                  ed_sqlerrcode := ERRCODE_OUT_OF_MEMORY;
                  message := errmsg_Function (symbol_name E h)
                               (out_of_memory_text E) |}] |}, Longjmp)).
Proof.
  intros Hnew Hex.
  destruct (execute_frame E f (executing E j h d) m' _ d eq_refl Hex)
    as [_ [_ [[d' Hd'] _]]].
  pose proof (inner_failure E (PG_RETURN_NULL E) f j h d d' m' _ Hnew Hex Hd')
    as Hcall.
  fold (call E f j h) in Hcall. cbn [inner_code inner_text] in Hcall.
  split; [exact Hcall|].
  intros Hnul Hlen. rewrite Hcall. unfold fails_with, error_report.
  now rewrite (out_of_memory_text_fits E Hnul Hlen).
Qed.

Lemma allocation_failure_is_out_of_memory_witness :
  call plain (raising None (bad_alloc "std::bad_alloc")) junk bare
  = fails_with plain bare ERRCODE_OUT_OF_MEMORY (out_of_memory_text plain)
  /\
  call plain (raising None (bad_alloc "std::bad_alloc")) junk bare
  = ({| fcinfo := fcinfo bare;
        reported :=
          [{| elevel := ERROR;
              ed_sqlerrcode := ERRCODE_OUT_OF_MEMORY;
              message := errmsg_Function (symbol_name plain bare)
                           (out_of_memory_text plain) |}] |}, Longjmp).
Proof.
  destruct (allocation_failure_is_out_of_memory plain
              (raising None (bad_alloc "std::bad_alloc")) junk bare None
              (fst (execute plain (raising None (bad_alloc "std::bad_alloc"))
                      (executing plain junk bare None)))
              "std::bad_alloc" eq_refl eq_refl) as [H1 H2].
  split; [exact H1|].
  apply H2; [reflexivity | vm_compute; lia].
Defined.

(** C1 as stated fails when the allocation failure happens before the
    inner try block is entered: the constructor of the interface object
    throws [std::bad_alloc], the outer try block has no clause for it, and
    the report is [ERRCODE_INVALID_PARAMETER_VALUE] with the text of the
    exception. *)
Lemma constructor_allocation_failure_is_not_out_of_memory :
  PGInterface_new exhausted (fcinfo bare) = Raise (bad_alloc "std::bad_alloc")
  /\
  exists r,
    call exhausted (idle exhausted) junk bare
    = ({| fcinfo := fcinfo bare; reported := [r] |}, Longjmp) /\
    ed_sqlerrcode r = ERRCODE_INVALID_PARAMETER_VALUE /\
    ed_sqlerrcode r <> ERRCODE_OUT_OF_MEMORY /\
    message r = errmsg_Function (symbol_name exhausted bare) "std::bad_alloc"
    /\
    message r
    <> errmsg_Function (symbol_name exhausted bare)
         (out_of_memory_text exhausted).
Proof.
  split; [reflexivity|].
  eexists. split; [vm_compute; reflexivity|].
  split; [reflexivity|]. split; [vm_compute; discriminate|].
  split; [vm_compute; reflexivity|].
  apply String.eqb_neq. vm_compute. reflexivity.
Qed.

(** C2.  When the body of the inner try block ends in an exception
    derived from [std::exception] other than [std::bad_alloc], [call]
    reports [ERRCODE_INVALID_PARAMETER_VALUE] once.  The text of the report
    is the text of the exception, unless the interface object holds a
    pending error, which is then reported instead: with a pending error M1
    and an exception that carries M2 the report is made of M1 and M2 does
    not occur in it.  As for every report, the text goes through [msg];
    one that fits its 2047 bytes is reported whole. *)
Theorem recognized_exception_is_invalid_argument
  (E : Env) (f : MADFunction E) (j : Indeterminate) (h : host)
  (d d' : PGInterface E) (m' : machine E) (w : string) :
  PGInterface_new E (fcinfo h) = Ok d ->
  execute E f (executing E j h d) = (m', Throw (std_exception w)) ->
  db E m' = Some d' ->
  let chosen := match lastError E d' with
                | Some pending => pending
                | None => w
                end in
  call E f j h = fails_with E h ERRCODE_INVALID_PARAMETER_VALUE chosen
  /\ (String.length (c_text chosen) <= budget ->
      call E f j h
      = ({| fcinfo := fcinfo h;
            reported := reported h ++
              [{| elevel := ERROR;
                  ed_sqlerrcode := ERRCODE_INVALID_PARAMETER_VALUE;
                  message := errmsg_Function (symbol_name E h)
                               (c_text chosen) |}] |}, Longjmp)).
Proof.
  intros Hnew Hex Hd' chosen.
  pose proof (inner_failure E (PG_RETURN_NULL E) f j h d d' m' _ Hnew Hex Hd')
    as Hcall.
  fold (call E f j h) in Hcall. cbn [inner_code inner_text] in Hcall.
  fold chosen in Hcall.
  split; [exact Hcall|].
  intros Hlen. rewrite Hcall. exact (fails_with_fits E h _ chosen Hlen).
Qed.

Lemma recognized_exception_is_invalid_argument_witness :
  call plain add junk (fresh [1%Z])
  = ({| fcinfo := fcinfo (fresh [1%Z]);
        reported :=
          [{| elevel := ERROR;
              ed_sqlerrcode := ERRCODE_INVALID_PARAMETER_VALUE;
              message := errmsg_Function (symbol_name plain (fresh [1%Z]))
                           "add needs two numbers" |}] |}, Longjmp).
Proof.
  refine (proj2 (recognized_exception_is_invalid_argument plain add junk
                   (fresh [1%Z]) None (Some "add needs two numbers")
                   (fst (execute plain add
                           (executing plain junk (fresh [1%Z]) None)))
                   "invalid argument" eq_refl eq_refl eq_refl) _).
  vm_compute. lia.
Defined.

(** C3, as amended.  When the native function returns normally with
    [result]: a null result makes [call] set [fcinfo->isnull] and return
    the zero datum; a result that is not null is handed to the converter,
    and when the conversion yields a datum [call] returns that datum and
    leaves the backend state as it found it, with nothing reported.  A
    conversion that throws is a failure of the inner try block like any
    other: nothing is returned and the failure is reported once through the
    error channel. *)
Theorem normal_return_converts_or_reports
  (E : Env) (f : MADFunction E) (j : Indeterminate) (h : host)
  (d d' : PGInterface E) (arg : PGType E) (a result : AnyType E) :
  PGInterface_new E (fcinfo h) = Ok d ->
  PGType_new E (fcinfo h) = Ok arg ->
  AnyType_new E {| sp_get := arg; sp_deleter := NoDeleter |} = Ok a ->
  f d a = (d', Ok result) ->
  call E f j h =
  if isNull E result
  then ({| fcinfo := set_isnull true (fcinfo h); reported := reported h |},
        Return 0%Z)
  else match convertToDatum E (fcinfo h) result with
       | Ok x => (h, Return x)
       | Raise (bad_alloc _) =>
           fails_with E h ERRCODE_OUT_OF_MEMORY (out_of_memory_text E)
       | Raise (std_exception w) =>
           fails_with E h ERRCODE_INVALID_PARAMETER_VALUE
             (match lastError E d' with
              | Some pending => pending
              | None => w
              end)
       | Raise foreign_exception =>
           fails_with E h ERRCODE_INVALID_PARAMETER_VALUE
             unknown_exception_text
       end.
Proof.
  intros Hnew Harg Hany Hf.
  pose proof (execute_run E f (executing E j h d) d eq_refl) as Hex.
  change (hst E (executing E j h d)) with h in Hex.
  rewrite Harg, Hany, Hf in Hex.
  destruct (isNull E result).
  - unfold call. rewrite (success E _ f j h d _ 0%Z Hnew Hex). reflexivity.
  - destruct (convertToDatum E (fcinfo h) result) as [x|e].
    + unfold call. rewrite (success E _ f j h d _ x Hnew Hex).
      destruct h; reflexivity.
    + unfold call.
      rewrite (inner_failure E _ f j h d d' _ e Hnew Hex eq_refl).
      destruct e; reflexivity.
Qed.

Lemma normal_return_converts_or_reports_witness :
  call plain add junk (fresh [1%Z; 2%Z]) = (fresh [1%Z; 2%Z], Return 3%Z)
  /\
  call plain (returning None) junk bare
  = ({| fcinfo := set_isnull true (fcinfo bare); reported := [] |},
     Return 0%Z).
Proof.
  split.
  - exact (normal_return_converts_or_reports plain add junk
             (fresh [1%Z; 2%Z]) None None [1%Z; 2%Z] (Some [1%Z; 2%Z])
             (Some [3%Z]) eq_refl eq_refl eq_refl eq_refl).
  - exact (normal_return_converts_or_reports plain (returning None) junk
             bare None None [] (Some []) None
             eq_refl eq_refl eq_refl eq_refl).
Defined.

(** C3 as stated fails when the conversion throws: the native function
    returns a value that is not null, the converter refuses it, and [call]
    leaves through the error channel instead of returning. *)
Lemma failed_conversion_is_not_returned :
  PGInterface_new plain (fcinfo bare) = Ok None /\
  PGType_new plain (fcinfo bare) = Ok [] /\
  AnyType_new plain {| sp_get := []; sp_deleter := NoDeleter |} = Ok (Some [])
  /\
  pair None (Some []) = (None, Ok (Some [1%Z; 2%Z])) /\
  isNull plain (Some [1%Z; 2%Z]) = false /\
  call plain pair junk bare
  = fails_with plain bare ERRCODE_INVALID_PARAMETER_VALUE
      "Internal type conversion error" /\
  forall h' x, call plain pair junk bare <> (h', Return x).
Proof.
  repeat (split; [vm_compute; reflexivity|]).
  intros h' x H. apply (f_equal snd) in H. vm_compute in H. discriminate H.
Qed.

(** C4.  Whatever the length of the failure message, the run of [call]
    stays inside [msg], and what [msg] holds when the report is made is
    the failure message cut to [msg]: the array keeps its 2048 bytes, its
    last byte is NUL, and it reads as the first 2047 bytes of the message
    (a message of 2047 bytes is kept whole, one of 2048 or of 3048 bytes
    is cut to 2047), with NUL bytes behind.  The failure message is the
    text the handlers choose: for an exception that escapes the constructor
    of the interface object its own text or the fixed text for unknown
    exceptions; for an exception that leaves the body of the inner try
    block the fixed text for allocation failures, the pending error or
    else the exception's own text, or the fixed text for unknown
    exceptions. *)
Theorem message_is_cut_and_terminated
  (E : Env) (f : MADFunction E) (j : Indeterminate) (h : host) :
  (forall (m : machine E) (c : completion unit),
      guarded_call E f j h = (m, c) ->
      c <> Fault /\
      (c = Longjmp ->
       (exists e, PGInterface_new E (fcinfo h) = Raise e) \/
       (exists d m' e,
           PGInterface_new E (fcinfo h) = Ok d /\
           execute E f (executing E j h d) = (m', Throw e))))
  /\
  (forall e,
      PGInterface_new E (fcinfo h) = Raise e ->
      exists m,
        guarded_call E f j h = (m, Longjmp) /\
        cut_in_msg E
          (match e with
           | bad_alloc w => w
           | std_exception w => w
           | foreign_exception => unknown_exception_text
           end) m)
  /\
  (forall d m' e d',
      PGInterface_new E (fcinfo h) = Ok d ->
      execute E f (executing E j h d) = (m', Throw e) ->
      db E m' = Some d' ->
      exists m,
        guarded_call E f j h = (m, Longjmp) /\
        cut_in_msg E
          (match e with
           | bad_alloc _ => out_of_memory_text E
           | std_exception w =>
               match lastError E d' with
               | Some pending => pending
               | None => w
               end
           | foreign_exception => unknown_exception_text
           end) m).
Proof.
  split; [|split].
  - intros m c Hrun. unfold guarded_call in Hrun.
    destruct (try_blocks_cases E f j h)
      as [[d [m' [x [_ [_ Htb]]]]] | [code [src [m1 [Hwhy [_ [_ Htb]]]]]]].
    + rewrite bind_run, Htb in Hrun. injection Hrun as <- <-.
      split; discriminate.
    + destruct (reported_after_handler E _ (ret tt) _ _ _ _ Htb)
        as [b [_ [_ [Hg _]]]].
      rewrite Hg in Hrun. injection Hrun as <- <-.
      split; [discriminate|]. intros _. exact Hwhy.
  - intros e Hnew.
    destruct (guarded_call_cut E f j h _ _ _
                (try_blocks_ctor_raises E f j h e Hnew)) as [m [Hg [_ Hcut]]].
    exists m. split; [exact Hg|]. destruct e; exact Hcut.
  - intros d m' e d' Hnew Hex Hd'.
    destruct (guarded_call_cut E f j h _ _ _
                (try_blocks_throws E f j h d m' e d' Hnew Hex Hd'))
      as [m [Hg [_ Hcut]]].
    exists m. split; [exact Hg|]. destruct e; exact Hcut.
Qed.

Lemma message_is_cut_and_terminated_witness :
  (exists m,
      guarded_call plain (raising None (std_exception (letters 3048))) junk
        bare = (m, Longjmp) /\
      List.length (msg plain m) = 2048 /\
      nth 2047 (msg plain m) "x"%char = NUL /\
      c_str (msg plain m) = Some (letters 2047)) /\
  (exists m,
      guarded_call plain (raising None (std_exception (letters 2048))) junk
        bare = (m, Longjmp) /\
      c_str (msg plain m) = Some (letters 2047)) /\
  (exists m,
      guarded_call plain (raising None (std_exception (letters 2047))) junk
        bare = (m, Longjmp) /\
      c_str (msg plain m) = Some (letters 2047)) /\
  (exists m,
      guarded_call unbuildable (idle unbuildable) junk bare = (m, Longjmp) /\
      c_str (msg unbuildable m) = Some (letters 2047)) /\
  snd (guarded_call plain verbose junk bare) <> Fault.
Proof.
  split; [|split; [|split; [|split]]].
  - destruct (proj2 (proj2 (message_is_cut_and_terminated plain
                              (raising None (std_exception (letters 3048)))
                              junk bare))
                None
                (fst (execute plain
                        (raising None (std_exception (letters 3048)))
                        (executing plain junk bare None)))
                (std_exception (letters 3048)) None eq_refl eq_refl eq_refl)
      as [m [Hg [Hl [Hn [Hr _]]]]].
    exists m. split; [exact Hg|]. split; [exact Hl|].
    split; [exact (Hn "x"%char)|exact Hr].
  - destruct (proj2 (proj2 (message_is_cut_and_terminated plain
                              (raising None (std_exception (letters 2048)))
                              junk bare))
                None
                (fst (execute plain
                        (raising None (std_exception (letters 2048)))
                        (executing plain junk bare None)))
                (std_exception (letters 2048)) None eq_refl eq_refl eq_refl)
      as [m [Hg [_ [_ [Hr _]]]]].
    exists m. split; [exact Hg|exact Hr].
  - destruct (proj2 (proj2 (message_is_cut_and_terminated plain
                              (raising None (std_exception (letters 2047)))
                              junk bare))
                None
                (fst (execute plain
                        (raising None (std_exception (letters 2047)))
                        (executing plain junk bare None)))
                (std_exception (letters 2047)) None eq_refl eq_refl eq_refl)
      as [m [Hg [_ [_ [Hr _]]]]].
    exists m. split; [exact Hg|exact Hr].
  - destruct (proj1 (proj2 (message_is_cut_and_terminated unbuildable
                              (idle unbuildable) junk bare))
                (std_exception (letters 2048)) eq_refl)
      as [m [Hg [_ [_ [Hr _]]]]].
    exists m. split; [exact Hg|exact Hr].
  - exact (proj1 (proj1 (message_is_cut_and_terminated plain verbose junk
                           bare)
                    (fst (guarded_call plain verbose junk bare))
                    (snd (guarded_call plain verbose junk bare))
                    (surjective_pairing _))).
Defined.

(** C5.  A failure that reaches the outer handlers is reported once, as
    [ERRCODE_INVALID_PARAMETER_VALUE], and [call] leaves through the error
    channel without touching anything else.  An exception that escapes the
    constructor of the interface object is reported with its own text when
    it is derived from [std::exception] ([std::bad_alloc] included), and
    with the fixed text for unknown exceptions otherwise; an object that is
    no [std::exception] thrown inside the inner try block gets that fixed
    text too.  As for every report, the text goes through [msg]; the fixed
    text, and the text of an exception that fits the 2047 bytes, are
    reported whole. *)
Theorem unrecognized_failure_is_invalid_argument
  (E : Env) (f : MADFunction E) (j : Indeterminate) (h : host) :
  (forall e,
      PGInterface_new E (fcinfo h) = Raise e ->
      let text := match e with
                  | bad_alloc w => w
                  | std_exception w => w
                  | foreign_exception => unknown_exception_text
                  end in
      call E f j h = fails_with E h ERRCODE_INVALID_PARAMETER_VALUE text /\
      (String.length (c_text text) <= budget ->
       call E f j h
       = ({| fcinfo := fcinfo h;
             reported := reported h ++
               [{| elevel := ERROR;
                   ed_sqlerrcode := ERRCODE_INVALID_PARAMETER_VALUE;
                   message := errmsg_Function (symbol_name E h)
                                (c_text text) |}] |}, Longjmp)))
  /\
  (forall d m',
      PGInterface_new E (fcinfo h) = Ok d ->
      execute E f (executing E j h d) = (m', Throw foreign_exception) ->
      call E f j h
      = ({| fcinfo := fcinfo h;
            reported := reported h ++
              [{| elevel := ERROR;
                  ed_sqlerrcode := ERRCODE_INVALID_PARAMETER_VALUE;
                  message := errmsg_Function (symbol_name E h)
                               unknown_exception_text |}] |}, Longjmp))
  /\
  take budget (c_text unknown_exception_text) = unknown_exception_text.
Proof.
  split; [|split].
  - intros e Hnew text.
    pose proof (outer_failure E (PG_RETURN_NULL E) f j h e Hnew) as Hcall.
    fold (call E f j h) in Hcall.
    change (outer_text e) with text in Hcall.
    split; [exact Hcall|].
    intros Hlen. rewrite Hcall. exact (fails_with_fits E h _ text Hlen).
  - intros d m' Hnew Hex.
    destruct (execute_frame E f (executing E j h d) m' _ d eq_refl Hex)
      as [_ [_ [[d' Hd'] _]]].
    pose proof (inner_failure E (PG_RETURN_NULL E) f j h d d' m' _
                  Hnew Hex Hd') as Hcall.
    fold (call E f j h) in Hcall. cbn [inner_code inner_text] in Hcall.
    rewrite Hcall. unfold fails_with, error_report.
    now rewrite unknown_exception_text_fits.
  - exact unknown_exception_text_fits.
Qed.

Lemma unrecognized_failure_is_invalid_argument_witness :
  call (sample (Raise foreign_exception)) (idle _) junk bare
  = ({| fcinfo := fcinfo bare;
        reported :=
          [{| elevel := ERROR;
              ed_sqlerrcode := ERRCODE_INVALID_PARAMETER_VALUE;
              message := errmsg_Function
                           (symbol_name (sample (Raise foreign_exception))
                              bare)
                           unknown_exception_text |}] |}, Longjmp)
  /\
  call (sample (Raise (std_exception "no connection"))) (idle _) junk bare
  = ({| fcinfo := fcinfo bare;
        reported :=
          [{| elevel := ERROR;
              ed_sqlerrcode := ERRCODE_INVALID_PARAMETER_VALUE;
              message := errmsg_Function
                           (symbol_name
                              (sample (Raise (std_exception "no connection")))
                              bare)
                           "no connection" |}] |}, Longjmp)
  /\
  call plain (raising None foreign_exception) junk bare
  = ({| fcinfo := fcinfo bare;
        reported :=
          [{| elevel := ERROR;
              ed_sqlerrcode := ERRCODE_INVALID_PARAMETER_VALUE;
              message := errmsg_Function (symbol_name plain bare)
                           unknown_exception_text |}] |}, Longjmp).
Proof.
  split; [|split].
  - refine (proj2 (proj1 (unrecognized_failure_is_invalid_argument
                            (sample (Raise foreign_exception)) (idle _)
                            junk bare)
                     foreign_exception eq_refl) _).
    vm_compute. lia.
  - refine (proj2 (proj1 (unrecognized_failure_is_invalid_argument
                            (sample (Raise (std_exception "no connection")))
                            (idle _) junk bare)
                     (std_exception "no connection") eq_refl) _).
    vm_compute. lia.
  - exact (proj1 (proj2 (unrecognized_failure_is_invalid_argument
                           plain (raising None foreign_exception) junk bare))
             None
             (fst (execute plain (raising None foreign_exception)
                     (executing plain junk bare None)))
             eq_refl eq_refl).
Defined.

(** C6.  Whenever [call] leaves through the error channel, the backend has
    received exactly one more report than before the call, at level
    [ERROR].  Its code is the local [sqlerrcode], one of the two codes the
    handlers assign, and its message is, byte for byte: the word Function,
    a space, a double quote (code 34), the name [format_procedure] gives
    [fcinfo->flinfo->fn_oid], a double quote, a colon, a space, and the
    text the local [msg] reads as. *)
Theorem one_report_in_the_fixed_format
  (E : Env) (f : MADFunction E) (j : Indeterminate) (h h' : host) :
  call E f j h = (h', Longjmp) ->
  exists m text,
    guarded_call E f j h = (m, Longjmp) /\
    c_str (msg E m) = Some text /\
    (sqlerrcode E m = ERRCODE_OUT_OF_MEMORY \/
     sqlerrcode E m = ERRCODE_INVALID_PARAMETER_VALUE) /\
    h' = {| fcinfo := fcinfo h;
            reported := reported h ++
              [{| elevel := ERROR;
                  ed_sqlerrcode := sqlerrcode E m;
                  message :=
                    ("Function "
                     ++ String (ascii_of_nat 34)
                          (c_text (format_procedure E
                                     (fn_oid (flinfo (fcinfo h))))
                           ++ String (ascii_of_nat 34)
                                (String ":" (String " " text))))%string
               |}] |}.
Proof.
  intros Hcall. unfold call, call_then in Hcall.
  destruct (try_blocks_cases E f j h)
    as [[d [m' [x [_ [_ Htb]]]]] | [code [src [m1 [_ [Hcode [Hh Htb]]]]]]].
  - rewrite bind_run, Htb in Hcall. discriminate Hcall.
  - destruct (reported_after_handler E _ (PG_RETURN_NULL E) _ _ _ _ Htb)
      as [b [_ [Hr [Hg Hl]]]].
    rewrite Hl, Hg in Hcall. cbn [hst set_hst] in Hcall.
    injection Hcall as <-.
    eexists; exists (take budget (c_text src)).
    split; [exact Hg|].
    cbn [msg sqlerrcode set_hst set_msg classified set_sqlerrcode].
    split; [exact Hr|]. split; [exact Hcode|].
    rewrite Hh. reflexivity.
Qed.

Lemma one_report_in_the_fixed_format_witness :
  exists m text,
    guarded_call plain add junk (fresh [1%Z]) = (m, Longjmp) /\
    c_str (msg plain m) = Some text /\
    (sqlerrcode plain m = ERRCODE_OUT_OF_MEMORY \/
     sqlerrcode plain m = ERRCODE_INVALID_PARAMETER_VALUE) /\
    add_refused
    = {| fcinfo := fcinfo (fresh [1%Z]);
         reported := reported (fresh [1%Z]) ++
           [{| elevel := ERROR;
               ed_sqlerrcode := sqlerrcode plain m;
               message :=
                 ("Function "
                  ++ String (ascii_of_nat 34)
                       (c_text (format_procedure plain
                                  (fn_oid (flinfo (fcinfo (fresh [1%Z])))))
                        ++ String (ascii_of_nat 34)
                             (String ":" (String " " text))))%string
            |}] |}.
Proof.
  refine (one_report_in_the_fixed_format plain add junk (fresh [1%Z])
            add_refused _).
  vm_compute. reflexivity.
Defined.

(** C7.  A call has one of two outcomes.  Either the interface object is
    built, the body of the inner try block executes a return statement and
    [call] returns that datum, with nothing reported; or the constructor or
    the body of the inner try block has thrown, and [call] leaves through
    the error channel after a single report.  The report is made in the
    second case only, and the statement written after the [ereport] has no
    effect on any call: replacing it by any other statement leaves [call]
    as it is. *)
Theorem outcomes_are_return_or_one_report
  (E : Env) (f : MADFunction E) (j : Indeterminate) (h : host) :
  ((exists d m' x,
       PGInterface_new E (fcinfo h) = Ok d /\
       execute E f (executing E j h d) = (m', Return x) /\
       call E f j h = (hst E m', Return x) /\
       reported (hst E m') = reported h)
   \/
   (exists code text,
       ((exists e, PGInterface_new E (fcinfo h) = Raise e) \/
        (exists d m' e, PGInterface_new E (fcinfo h) = Ok d /\
                        execute E f (executing E j h d) = (m', Throw e))) /\
       call E f j h = fails_with E h code text))
  /\
  (forall last : M E unit, call_then E last f j h = call E f j h).
Proof.
  destruct (try_blocks_cases E f j h)
    as [[d [m' [x [Hnew [Hex Htb]]]]] | [code [src [m1 [Hwhy [_ [Hh Htb]]]]]]].
  - split.
    + left. exists d, m', x. split; [exact Hnew|]. split; [exact Hex|].
      split; [exact (success E _ f j h d m' x Hnew Hex)|].
      destruct (execute_frame E f (executing E j h d) m' _ d eq_refl Hex)
        as [_ [_ [_ [-> | [_ ->]]]]]; reflexivity.
    + intros last. unfold call.
      rewrite !(success E _ f j h d m' x Hnew Hex). reflexivity.
  - split.
    + right. exists code, src. split; [exact Hwhy|].
      exact (call_then_fails E _ f j h code src m1 Htb Hh).
    + intros last. unfold call.
      rewrite !(call_then_fails E _ f j h code src m1 Htb Hh). reflexivity.
Qed.

(** C8.  The shared pointer [call] wraps around the argument object is
    built with [NoDeleter]: it does not own the object and frees nothing
    when its last copy goes away.  No other value is ever passed to the
    native function: two native functions that agree on the values built
    from such a pointer around the argument object of the call make [call]
    behave alike. *)
Theorem argument_is_referenced_not_owned (E : Env) :
  (forall arg : PGType E,
      owning {| sp_get := arg; sp_deleter := NoDeleter |} = false /\
      released {| sp_get := arg; sp_deleter := NoDeleter |} = [])
  /\
  (forall (f g : MADFunction E) (j : Indeterminate) (h : host),
      (forall d arg a,
          PGType_new E (fcinfo h) = Ok arg ->
          AnyType_new E {| sp_get := arg; sp_deleter := NoDeleter |} = Ok a ->
          f d a = g d a) ->
      call E f j h = call E g j h).
Proof.
  split; [intros arg; split; reflexivity|].
  intros f g j h Hfg. unfold call, call_then.
  rewrite !bind_run.
  rewrite (try_blocks_ext E f g j h); [reflexivity|].
  intros d _.
  rewrite (execute_run E f (executing E j h d) d eq_refl).
  rewrite (execute_run E g (executing E j h d) d eq_refl).
  change (hst E (executing E j h d)) with h.
  destruct (PGType_new E (fcinfo h)) as [arg|e] eqn:Harg; [|reflexivity].
  destruct (AnyType_new E _) as [a|e] eqn:Hany; [|reflexivity].
  rewrite (Hfg d arg a eq_refl Hany). reflexivity.
Qed.

Lemma argument_is_referenced_not_owned_witness :
  call plain add junk (fresh [1%Z; 2%Z])
  = call plain (returning (Some [3%Z])) junk (fresh [1%Z; 2%Z]).
Proof.
  apply (proj2 (argument_is_referenced_not_owned plain)).
  intros d arg a Harg Hany.
  injection Harg as <-. injection Hany as <-.
  reflexivity.
Defined.

(** C9.  When the constructor of the interface object throws
    [std::bad_alloc], the outer handler for [std::exception] takes it:
    [call] reports [ERRCODE_INVALID_PARAMETER_VALUE] with the text of the
    exception (whole when it fits [msg]), and not [ERRCODE_OUT_OF_MEMORY]
    with the fixed text. *)
Theorem bad_alloc_in_constructor_is_invalid_argument
  (E : Env) (f : MADFunction E) (j : Indeterminate) (h : host) (w : string) :
  PGInterface_new E (fcinfo h) = Raise (bad_alloc w) ->
  call E f j h = fails_with E h ERRCODE_INVALID_PARAMETER_VALUE w /\
  call E f j h <> fails_with E h ERRCODE_OUT_OF_MEMORY (out_of_memory_text E)
  /\
  (String.length (c_text w) <= budget ->
   call E f j h
   = ({| fcinfo := fcinfo h;
         reported := reported h ++
           [{| elevel := ERROR;
               ed_sqlerrcode := ERRCODE_INVALID_PARAMETER_VALUE;
               message := errmsg_Function (symbol_name E h) (c_text w) |}] |},
      Longjmp)).
Proof.
  intros Hnew.
  pose proof (outer_failure E (PG_RETURN_NULL E) f j h _ Hnew) as Hcall.
  fold (call E f j h) in Hcall. cbn [outer_text] in Hcall.
  split; [exact Hcall|]. split.
  - rewrite Hcall. intros H. apply fails_with_code in H.
    symmetry in H. exact (codes_differ H).
  - intros Hlen. rewrite Hcall. exact (fails_with_fits E h _ w Hlen).
Qed.

Lemma bad_alloc_in_constructor_is_invalid_argument_witness :
  call exhausted (idle exhausted) junk bare
  = ({| fcinfo := fcinfo bare;
        reported :=
          [{| elevel := ERROR;
              ed_sqlerrcode := ERRCODE_INVALID_PARAMETER_VALUE;
              message := errmsg_Function (symbol_name exhausted bare)
                           "std::bad_alloc" |}] |}, Longjmp)
  /\
  call exhausted (idle exhausted) junk bare
  <> fails_with exhausted bare ERRCODE_OUT_OF_MEMORY
       (out_of_memory_text exhausted).
Proof.
  destruct (bad_alloc_in_constructor_is_invalid_argument exhausted
              (idle exhausted) junk bare "std::bad_alloc" eq_refl)
    as [_ [Hne Hfit]].
  split; [|exact Hne].
  apply Hfit. vm_compute. lia.
Defined.

(** C10.  When the body of the inner try block ends in a [std::bad_alloc]
    while the interface object holds a pending error, the pending error is
    not looked at: [call] reports [ERRCODE_OUT_OF_MEMORY] with the fixed
    text, and not [ERRCODE_INVALID_PARAMETER_VALUE] with the pending
    error; and the call stays the same when [lastError()] is replaced by
    any other function. *)
Theorem out_of_memory_ignores_pending_error
  (E : Env) (f : MADFunction E) (j : Indeterminate) (h : host)
  (d d' : PGInterface E) (m' : machine E) (w pending : string) :
  PGInterface_new E (fcinfo h) = Ok d ->
  execute E f (executing E j h d) = (m', Throw (bad_alloc w)) ->
  db E m' = Some d' ->
  lastError E d' = Some pending ->
  call E f j h = fails_with E h ERRCODE_OUT_OF_MEMORY (out_of_memory_text E) /\
  call E f j h <> fails_with E h ERRCODE_INVALID_PARAMETER_VALUE pending /\
  (forall g : PGInterface E -> option string,
      call (with_lastError E g) f j h = call E f j h).
Proof.
  intros Hnew Hex Hd' _.
  pose proof (inner_failure E (PG_RETURN_NULL E) f j h d d' m' _ Hnew Hex Hd')
    as Hcall.
  fold (call E f j h) in Hcall. cbn [inner_code inner_text] in Hcall.
  split; [exact Hcall|]. split.
  - rewrite Hcall. intros H. apply fails_with_code in H.
    exact (codes_differ H).
  - intros g. rewrite Hcall.
    pose proof (execute_lastError E g f j h d) as Hsnd.
    rewrite Hex in Hsnd. cbn [snd] in Hsnd.
    destruct (execute (with_lastError E g) f
                (executing (with_lastError E g) j h d)) as [m2 c2] eqn:Hex2.
    cbn [snd] in Hsnd. subst c2.
    destruct (execute_frame (with_lastError E g) f
                (executing (with_lastError E g) j h d) m2 _ d eq_refl Hex2)
      as [_ [_ [[d2 Hd2] _]]].
    exact (inner_failure (with_lastError E g)
             (PG_RETURN_NULL (with_lastError E g)) f j h d d2 m2 _
             Hnew Hex2 Hd2).
Qed.

Lemma out_of_memory_ignores_pending_error_witness :
  call plain (raising (Some "pending") (bad_alloc "std::bad_alloc")) junk bare
  = fails_with plain bare ERRCODE_OUT_OF_MEMORY (out_of_memory_text plain) /\
  call plain (raising (Some "pending") (bad_alloc "std::bad_alloc")) junk bare
  <> fails_with plain bare ERRCODE_INVALID_PARAMETER_VALUE "pending" /\
  call (with_lastError plain (fun _ => None))
    (raising (Some "pending") (bad_alloc "std::bad_alloc")) junk bare
  = call plain (raising (Some "pending") (bad_alloc "std::bad_alloc")) junk
      bare.
Proof.
  destruct (out_of_memory_ignores_pending_error plain
              (raising (Some "pending") (bad_alloc "std::bad_alloc")) junk
              bare None (Some "pending")
              (fst (execute plain
                      (raising (Some "pending") (bad_alloc "std::bad_alloc"))
                      (executing plain junk bare None)))
              "std::bad_alloc" "pending" eq_refl eq_refl eq_refl eq_refl)
    as [H1 [H2 H3]].
  split; [exact H1|]. split; [exact H2|]. exact (H3 (fun _ => None)).
Defined.

(* ===================================================================== *)
(** ** Further properties of the entry point *)
(* ===================================================================== *)

(** X1.  [sqlerrcode] and [msg] are declared without initialisers.  What
    they hold on entry never shows: a call behaves the same whatever the
    two locals contain when it starts, because each is assigned before it
    is read. *)
Theorem call_ignores_indeterminate_locals
  (E : Env) (f : MADFunction E) (j j' : Indeterminate) (h : host) :
  call E f j h = call E f j' h.
Proof. exact (call_indeterminate E f j j' h). Qed.

(** X2.  [call] never writes to [fcinfo] except through
    [PG_RETURN_NULL()]: [flinfo] and the arguments are left alone, and
    [isnull] is either left alone or set, the latter together with the
    return of the zero datum.  It is never cleared, so a flag that is set
    on entry is still set when [call] returns a value that is not null or
    leaves through the error channel. *)
Theorem isnull_is_only_ever_set
  (E : Env) (f : MADFunction E) (j : Indeterminate) (h : host) :
  flinfo (fcinfo (fst (call E f j h))) = flinfo (fcinfo h) /\
  args (fcinfo (fst (call E f j h))) = args (fcinfo h) /\
  (fcinfo (fst (call E f j h)) = fcinfo h \/
   (fcinfo (fst (call E f j h)) = set_isnull true (fcinfo h) /\
    snd (call E f j h) = Return 0%Z)) /\
  (isnull (fcinfo h) = true -> isnull (fcinfo (fst (call E f j h))) = true).
Proof.
  assert (H : fcinfo (fst (call E f j h)) = fcinfo h \/
              (fcinfo (fst (call E f j h)) = set_isnull true (fcinfo h) /\
               snd (call E f j h) = Return 0%Z)).
  { unfold call.
    destruct (PGInterface_new E (fcinfo h)) as [d|e] eqn:Hnew.
    2:{ rewrite (outer_failure E _ f j h e Hnew). left. reflexivity. }
    destruct (execute E f (executing E j h d)) as [m' c] eqn:Hex.
    rewrite (call_of_execute E _ f j h d m' c Hnew Hex).
    destruct (execute_frame E f (executing E j h d) m' c d eq_refl Hex)
      as [_ [_ [_ Hc]]].
    destruct c as [[]|x|e| |]; try contradiction.
    - cbn [fst snd]. destruct Hc as [-> | [-> ->]].
      + left. reflexivity.
      + right. split; reflexivity.
    - left. reflexivity. }
  destruct H as [H | [H Hr]]; rewrite H.
  - repeat split; auto.
  - repeat split; auto.
Qed.

Lemma isnull_is_only_ever_set_witness :
  isnull (fcinfo stale) = true /\
  snd (call plain add junk stale) = Return 3%Z /\
  isnull (fcinfo (fst (call plain add junk stale))) = true.
Proof.
  split; [reflexivity|]. split; [vm_compute; reflexivity|].
  apply (proj2 (proj2 (proj2 (isnull_is_only_ever_set plain add junk stale)))).
  reflexivity.
Defined.

(** X3.  [ERRCODE_OUT_OF_MEMORY] is reported for nothing but a
    [std::bad_alloc] that leaves the body of the inner try block: whenever
    the report of a call carries that code, the interface object had been
    built and the body ended in a [std::bad_alloc]. *)
Theorem out_of_memory_only_for_inner_bad_alloc
  (E : Env) (f : MADFunction E) (j : Indeterminate) (h h' : host)
  (r : ErrorData) :
  call E f j h = (h', Longjmp) ->
  reported h' = reported h ++ [r] ->
  ed_sqlerrcode r = ERRCODE_OUT_OF_MEMORY ->
  exists d m' w,
    PGInterface_new E (fcinfo h) = Ok d /\
    execute E f (executing E j h d) = (m', Throw (bad_alloc w)).
Proof.
  intros Hcall Hrep Hcode. unfold call in Hcall.
  destruct (PGInterface_new E (fcinfo h)) as [d|e] eqn:Hnew.
  - destruct (execute E f (executing E j h d)) as [m' c] eqn:Hex.
    rewrite (call_of_execute E _ f j h d m' c Hnew Hex) in Hcall.
    destruct (execute_frame E f (executing E j h d) m' c d eq_refl Hex)
      as [_ [_ [_ Hc]]].
    destruct c as [[]|x|e| |]; try contradiction; [discriminate Hcall|].
    unfold fails_with in Hcall. injection Hcall as <-.
    cbn [reported] in Hrep. apply app_inv_head in Hrep.
    injection Hrep as <-. cbn [ed_sqlerrcode error_report] in Hcode.
    destruct e as [w|w|].
    + now exists d, m', w.
    + cbn in Hcode. symmetry in Hcode. destruct (codes_differ Hcode).
    + cbn in Hcode. symmetry in Hcode. destruct (codes_differ Hcode).
  - rewrite (outer_failure E _ f j h e Hnew) in Hcall.
    unfold fails_with in Hcall. injection Hcall as <-.
    cbn [reported] in Hrep. apply app_inv_head in Hrep.
    injection Hrep as <-. cbn [ed_sqlerrcode error_report] in Hcode.
    symmetry in Hcode. destruct (codes_differ Hcode).
Qed.

Lemma out_of_memory_only_for_inner_bad_alloc_witness :
  exists d m' w,
    PGInterface_new plain (fcinfo bare) = Ok d /\
    execute plain (raising None (bad_alloc "std::bad_alloc"))
      (executing plain junk bare d)
    = (m', Throw (bad_alloc w)).
Proof.
  refine (out_of_memory_only_for_inner_bad_alloc plain
            (raising None (bad_alloc "std::bad_alloc")) junk bare
            (fst (fails_with plain bare ERRCODE_OUT_OF_MEMORY
                    (out_of_memory_text plain)))
            (error_report plain bare ERRCODE_OUT_OF_MEMORY
               (out_of_memory_text plain)) _ _ _).
  - vm_compute. reflexivity.
  - reflexivity.
  - reflexivity.
Defined.

(** X4.  [lastError()] is looked at in one place only, the inner handler
    for [std::exception].  Unless the body of the inner try block ends in
    an exception derived from [std::exception] other than
    [std::bad_alloc], the pending error plays no part: the call stays the
    same when [lastError()] is replaced by any other function.  A pending
    error left by a native function that returns, that runs out of memory
    or that throws an object that is no [std::exception] is dropped. *)
Theorem lastError_matters_only_for_std_exception
  (E : Env) (f : MADFunction E) (j : Indeterminate) (h : host)
  (g : PGInterface E -> option string) :
  (forall d m' w,
      PGInterface_new E (fcinfo h) = Ok d ->
      execute E f (executing E j h d) <> (m', Throw (std_exception w))) ->
  call (with_lastError E g) f j h = call E f j h.
Proof.
  intros Hno. unfold call.
  destruct (PGInterface_new E (fcinfo h)) as [d|e] eqn:Hnew.
  2:{ rewrite (outer_failure E _ f j h e Hnew).
      exact (outer_failure (with_lastError E g) _ f j h e Hnew). }
  pose proof (execute_lastError E g f j h d) as Hc.
  destruct (execute_lastError_state E g f j h d) as [Hh Hd].
  destruct (execute E f (executing E j h d)) as [m1 c1] eqn:H1.
  destruct (execute (with_lastError E g) f
              (executing (with_lastError E g) j h d)) as [m2 c2] eqn:H2.
  cbn [fst snd] in Hc, Hh, Hd. subst c2.
  rewrite (call_of_execute E _ f j h d m1 c1 Hnew H1).
  rewrite (call_of_execute (with_lastError E g) _ f j h d m2 c1 Hnew H2).
  destruct c1 as [[]|x|e| |]; try (rewrite Hh; reflexivity).
  destruct e as [w|w|]; try reflexivity.
  destruct (Hno d m1 w eq_refl H1).
Qed.

Lemma lastError_matters_only_for_std_exception_witness :
  call (with_lastError plain (fun _ => None))
    (raising (Some "pending") foreign_exception) junk bare
  = call plain (raising (Some "pending") foreign_exception) junk bare.
Proof.
  apply (lastError_matters_only_for_std_exception plain
           (raising (Some "pending") foreign_exception) junk bare
           (fun _ => None)).
  intros d m' w _ H. apply (f_equal snd) in H. vm_compute in H.
  discriminate H.
Defined.

(** X5.  The converter is applied to nothing but a result of the native
    function that is not null: a null result, a native function that
    throws and a constructor that throws all keep it out of the call.  Two
    converters that agree on the results that are not null make [call]
    behave alike. *)
Theorem converter_sees_only_non_null_results
  (E : Env) (f : MADFunction E) (j : Indeterminate) (h : host)
  (conv : FunctionCallInfoData -> AnyType E -> result Datum) :
  (forall d arg a d' result,
      PGInterface_new E (fcinfo h) = Ok d ->
      PGType_new E (fcinfo h) = Ok arg ->
      AnyType_new E {| sp_get := arg; sp_deleter := NoDeleter |} = Ok a ->
      f d a = (d', Ok result) ->
      isNull E result = false ->
      conv (fcinfo h) result = convertToDatum E (fcinfo h) result) ->
  call (with_convertToDatum E conv) f j h = call E f j h.
Proof.
  intros Hconv. unfold call.
  destruct (PGInterface_new E (fcinfo h)) as [d|e] eqn:Hnew.
  2:{ rewrite (outer_failure E _ f j h e Hnew).
      exact (outer_failure (with_convertToDatum E conv) _ f j h e Hnew). }
  destruct (execute_convertToDatum E conv f j h d
              (fun arg a d' result => Hconv d arg a d' result eq_refl))
    as [Hc [Hh Hd]].
  destruct (execute E f (executing E j h d)) as [m1 c1] eqn:H1.
  destruct (execute (with_convertToDatum E conv) f
              (executing (with_convertToDatum E conv) j h d))
    as [m2 c2] eqn:H2.
  cbn [fst snd] in Hc, Hh, Hd. subst c2.
  rewrite (call_of_execute E _ f j h d m1 c1 Hnew H1).
  rewrite (call_of_execute (with_convertToDatum E conv) _ f j h d m2 c1
             Hnew H2).
  destruct c1 as [[]|x|e| |]; try (rewrite Hh; reflexivity).
  unfold pending_error. rewrite Hd. reflexivity.
Qed.

Lemma converter_sees_only_non_null_results_witness :
  call (with_convertToDatum plain refuse) (returning None) junk bare
  = call plain (returning None) junk bare.
Proof.
  apply (converter_sees_only_non_null_results plain (returning None) junk
           bare refuse).
  intros d arg a d' result _ _ _ Hf Hnull.
  injection Hf as _ <-. discriminate Hnull.
Defined.

(** X6.  The native function is reached only when the interface object,
    the argument object and the value around it have all been built: when
    one of the three constructors throws, [call] is the same for every
    native function. *)
Theorem native_function_needs_all_three_objects
  (E : Env) (f g : MADFunction E) (j : Indeterminate) (h : host) :
  (exists e, PGInterface_new E (fcinfo h) = Raise e) \/
  (exists e, PGType_new E (fcinfo h) = Raise e) \/
  (exists arg e,
      PGType_new E (fcinfo h) = Ok arg /\
      AnyType_new E {| sp_get := arg; sp_deleter := NoDeleter |} = Raise e) ->
  call E f j h = call E g j h.
Proof.
  intros Hfail. unfold call, call_then. rewrite !bind_run.
  rewrite (try_blocks_ext E f g j h); [reflexivity|].
  intros d Hnew.
  rewrite (execute_run E f (executing E j h d) d eq_refl).
  rewrite (execute_run E g (executing E j h d) d eq_refl).
  change (hst E (executing E j h d)) with h.
  destruct Hfail as [[e He] | [[e He] | [arg [e [Harg He]]]]].
  - congruence.
  - rewrite He. reflexivity.
  - rewrite Harg, He. reflexivity.
Qed.

Lemma native_function_needs_all_three_objects_witness :
  call exhausted (idle exhausted) junk bare
  = call exhausted (fun d _ => (d, Ok None)) junk bare.
Proof.
  apply (native_function_needs_all_three_objects exhausted).
  left. exists (bad_alloc "std::bad_alloc"). reflexivity.
Defined.

(** X7.  The message of a report is the 13 bytes of the format around the
    name of the function, the name itself, which is never cut, and at most
    2047 bytes of text: its length lies between 13 and 2060 bytes on top
    of the length of the name. *)
Theorem report_length_is_bounded
  (E : Env) (f : MADFunction E) (j : Indeterminate) (h h' : host) :
  call E f j h = (h', Longjmp) ->
  exists r,
    reported h' = reported h ++ [r] /\
    13 + String.length (symbol_name E h) <= String.length (message r) /\
    String.length (message r) <= 2060 + String.length (symbol_name E h).
Proof.
  intros Hcall. unfold call in Hcall.
  assert (Hf : exists code src, call_then E (PG_RETURN_NULL E) f j h
                                = fails_with E h code src).
  { destruct (PGInterface_new E (fcinfo h)) as [d|e] eqn:Hnew.
    2:{ eexists; eexists. exact (outer_failure E _ f j h e Hnew). }
    destruct (execute E f (executing E j h d)) as [m' c] eqn:Hex.
    rewrite (call_of_execute E _ f j h d m' c Hnew Hex) in Hcall |- *.
    destruct (execute_frame E f (executing E j h d) m' c d eq_refl Hex)
      as [_ [_ [_ Hc]]].
    destruct c as [[]|x|e| |]; try contradiction; [discriminate Hcall|].
    eexists; eexists; reflexivity. }
  destruct Hf as [code [src Hf]]. rewrite Hf in Hcall.
  unfold fails_with in Hcall. injection Hcall as <-.
  exists (error_report E h code src). split; [reflexivity|].
  cbn [message error_report]. rewrite errmsg_Function_length.
  pose proof (take_length budget (c_text src)) as Hlen.
  assert (Hb : budget = 2047) by reflexivity. lia.
Qed.

Lemma report_length_is_bounded_witness :
  exists r,
    reported (fst (fails_with plain bare ERRCODE_INVALID_PARAMETER_VALUE
                     (letters 2048)))
    = reported bare ++ [r] /\
    13 + String.length (symbol_name plain bare) <= String.length (message r)
    /\
    String.length (message r) <= 2060 + String.length (symbol_name plain bare).
Proof.
  refine (report_length_is_bounded plain verbose junk bare
            (fst (fails_with plain bare ERRCODE_INVALID_PARAMETER_VALUE
                    (letters 2048))) _).
  vm_compute. reflexivity.
Defined.

(** X8.  When the report is made, [msg] holds the reported text followed
    by NUL bytes to its end and nothing else: [strncpy] pads the array, so
    no byte of what the array held before survives behind the text. *)
Theorem buffer_is_text_then_NULs
  (E : Env) (f : MADFunction E) (j : Indeterminate) (h : host)
  (m : machine E) :
  guarded_call E f j h = (m, Longjmp) ->
  exists text,
    String.length text <= sizeof_msg - 1 /\
    c_str (msg E m) = Some text /\
    msg E m
    = list_ascii_of_string text
      ++ repeat NUL (sizeof_msg - String.length text).
Proof.
  intros Hrun. unfold guarded_call in Hrun.
  destruct (try_blocks_cases E f j h)
    as [[d [m' [x [_ [_ Htb]]]]] | [code [src [m1 [_ [_ [_ Htb]]]]]]].
  - rewrite bind_run, Htb in Hrun. discriminate Hrun.
  - destruct (reported_after_handler E _ (ret tt) _ _ _ _ Htb)
      as [b [Hb [Hr [Hg _]]]].
    rewrite Hg in Hrun. injection Hrun as <-. cbn [msg set_hst set_msg].
    exists (take budget (c_text src)).
    split; [apply take_length|]. split; [exact Hr|].
    exact (msg_shape src b Hb).
Qed.

Lemma buffer_is_text_then_NULs_witness :
  exists text,
    String.length text <= sizeof_msg - 1 /\
    c_str (msg plain (fst (guarded_call plain add junk (fresh [1%Z]))))
    = Some text /\
    msg plain (fst (guarded_call plain add junk (fresh [1%Z])))
    = list_ascii_of_string text
      ++ repeat NUL (sizeof_msg - String.length text).
Proof.
  apply (buffer_is_text_then_NULs plain add junk (fresh [1%Z])).
  assert (Hs : snd (guarded_call plain add junk (fresh [1%Z])) = Longjmp)
    by (vm_compute; reflexivity).
  rewrite <- Hs. apply surjective_pairing.
Defined.

(** X9.  The pending error is tested as a pointer, not as a text: a
    pending error that is not null but empty still replaces the text of
    the exception, and the report then carries no text behind the name of
    the function. *)
Theorem empty_pending_error_hides_exception_text
  (E : Env) (f : MADFunction E) (j : Indeterminate) (h : host)
  (d d' : PGInterface E) (m' : machine E) (w p : string) :
  PGInterface_new E (fcinfo h) = Ok d ->
  execute E f (executing E j h d) = (m', Throw (std_exception w)) ->
  db E m' = Some d' ->
  lastError E d' = Some p ->
  c_text p = EmptyString ->
  call E f j h
  = ({| fcinfo := fcinfo h;
        reported := reported h ++
          [{| elevel := ERROR;
              ed_sqlerrcode := ERRCODE_INVALID_PARAMETER_VALUE;
              message := errmsg_Function (symbol_name E h) EmptyString |}] |},
     Longjmp).
Proof.
  intros Hnew Hex Hd' Hp Hempty.
  pose proof (inner_failure E (PG_RETURN_NULL E) f j h d d' m' _ Hnew Hex Hd')
    as Hcall.
  fold (call E f j h) in Hcall. cbn [inner_code inner_text] in Hcall.
  rewrite Hp in Hcall. rewrite Hcall.
  rewrite (fails_with_fits E h _ p); [now rewrite Hempty|].
  rewrite Hempty. cbn [String.length]. lia.
Qed.

Lemma empty_pending_error_hides_exception_text_witness :
  call plain (raising (Some "") (std_exception "invalid argument")) junk bare
  = ({| fcinfo := fcinfo bare;
        reported :=
          [{| elevel := ERROR;
              ed_sqlerrcode := ERRCODE_INVALID_PARAMETER_VALUE;
              message := errmsg_Function (symbol_name plain bare)
                           EmptyString |}] |},
     Longjmp).
Proof.
  exact (empty_pending_error_hides_exception_text plain
           (raising (Some "") (std_exception "invalid argument")) junk bare
           None (Some "")
           (fst (execute plain
                   (raising (Some "") (std_exception "invalid argument"))
                   (executing plain junk bare None)))
           "invalid argument" "" eq_refl eq_refl eq_refl eq_refl eq_refl).
Defined.

(** X10.  The budget is exact.  When an exception derived from
    [std::exception] other than [std::bad_alloc] leaves the body of the
    inner try block, the report carries the whole of the chosen text (the
    pending error if there is one, the text of the exception otherwise)
    if and only if that text has at most 2047 bytes; a longer text is
    never reported whole. *)
Theorem text_is_whole_iff_it_fits
  (E : Env) (f : MADFunction E) (j : Indeterminate) (h : host)
  (d d' : PGInterface E) (m' : machine E) (w : string) :
  PGInterface_new E (fcinfo h) = Ok d ->
  execute E f (executing E j h d) = (m', Throw (std_exception w)) ->
  db E m' = Some d' ->
  let chosen := match lastError E d' with
                | Some pending => pending
                | None => w
                end in
  call E f j h
  = ({| fcinfo := fcinfo h;
        reported := reported h ++
          [{| elevel := ERROR;
              ed_sqlerrcode := ERRCODE_INVALID_PARAMETER_VALUE;
              message := errmsg_Function (symbol_name E h)
                           (c_text chosen) |}] |}, Longjmp)
  <-> String.length (c_text chosen) <= 2047.
Proof.
  intros Hnew Hex Hd' chosen.
  pose proof (inner_failure E (PG_RETURN_NULL E) f j h d d' m' _ Hnew Hex Hd')
    as Hcall.
  fold (call E f j h) in Hcall. cbn [inner_code inner_text] in Hcall.
  fold chosen in Hcall. rewrite Hcall.
  split.
  - intros H. apply fails_with_whole in H.
    exact (proj1 (take_whole_iff budget (c_text chosen)) H).
  - intros Hlen. exact (fails_with_fits E h _ chosen Hlen).
Qed.

Lemma text_is_whole_iff_it_fits_witness :
  call plain verbose junk bare
  <> ({| fcinfo := fcinfo bare;
         reported := reported bare ++
           [{| elevel := ERROR;
               ed_sqlerrcode := ERRCODE_INVALID_PARAMETER_VALUE;
               message := errmsg_Function (symbol_name plain bare)
                            (c_text (letters 2048)) |}] |}, Longjmp).
Proof.
  intros H.
  apply (proj1 (text_is_whole_iff_it_fits plain verbose junk bare None None
                  (fst (execute plain verbose (executing plain junk bare None)))
                  (letters 2048) eq_refl eq_refl eq_refl)) in H.
  vm_compute in H. lia.
Defined.
